(** * kabka: locale-collision scanner (src/kabka.py)

    A shallow embedding of the scanner's decision logic and the properties
    of its specification.

    - Python [str] values are Rocq strings; a character is a code point
      below 256, and the regular-expression classes ([\w], [[-a-zA-Z]],
      [[^>]]) are Python's, restricted to that range.
    - Python dictionaries keep insertion order; [results], [CODES], [SITES],
      [DEVICES], the request headers and [report] are association lists
      updated the way [d[k] = v] does.  The [lru_cache] store, which is
      only looked up by key, is a [gmap].
    - The HTTP client ([requests]) and the language-tag oracle
      ([langcodes]) are external: they are the fields of the class
      [Collaborators], acting on an abstract [World].
    - Code that can raise runs in a state-and-exception monad [M]. *)

From Stdlib Require Import Ascii String NArith ZArith Bool.
From stdpp Require Import base option list gmap strings.

(* ------------------------------------------------------------------ *)
(** ** Python strings *)

Module Py.

(** [s.startswith(p)] *)
Definition startswith (s p : string) : bool := String.prefix p s.

(** Truth value of a [str]: empty strings are false. *)
Definition truthy (s : string) : bool := negb (String.eqb s EmptyString).

(** [x in t] for a tuple of strings. *)
Definition in_tuple (x : string) (t : list string) : bool :=
  existsb (String.eqb x) t.

(** [c.isprintable()] for a code point below 256: the visible ASCII
    characters and space, and the Latin-1 characters from 161 on without
    the soft hyphen (173). *)
Definition printable (c : ascii) : bool :=
  let n := N_of_ascii c in
  ((32 <=? n) && (n <=? 126) || (161 <=? n) && negb (n =? 173))%N.

Definition hex_digit (n : N) : ascii :=
  nth (N.to_nat n) (list_ascii_of_string "0123456789abcdef") "0"%char.

(** The escape [\xhh] of a code point below 256. *)
Definition hex_escape (c : ascii) : string :=
  String "\" (String "x" (String (hex_digit (N_of_ascii c / 16))
                            (String (hex_digit (N_of_ascii c mod 16)) EmptyString))).

Fixpoint contains (c : ascii) (s : string) : bool :=
  match s with
  | EmptyString => false
  | String c' s' => Ascii.eqb c' c || contains c s'
  end.

(** One character of [repr(s)]: the quote in use and the backslash are
    escaped with a backslash, tab, line feed and carriage return have
    their letters, other unprintable characters their hexadecimal
    escape. *)
Definition repr_char (quote c : ascii) : string :=
  if Ascii.eqb c quote || Ascii.eqb c "\" then String "\" (String c EmptyString)
  else if Ascii.eqb c "009" then String "\" (String "t" EmptyString)
  else if Ascii.eqb c "010" then String "\" (String "n" EmptyString)
  else if Ascii.eqb c "013" then String "\" (String "r" EmptyString)
  else if printable c then String c EmptyString
  else hex_escape c.

Fixpoint repr_body (quote : ascii) (s : string) : string :=
  match s with
  | EmptyString => EmptyString
  | String c s' => repr_char quote c +:+ repr_body quote s'
  end.

(** [repr(s)]: between single quotes, or between double quotes (code
    point 34) when the string holds a single quote and no double one. *)
Definition repr (s : string) : string :=
  let quote :=
    if contains "'" s && negb (contains "034" s) then "034"%char else "'"%char in
  String quote (repr_body quote s +:+ String quote EmptyString).

End Py.

(* ------------------------------------------------------------------ *)
(** ** Insertion-ordered dictionaries *)

Section Dict.
Context {K V : Type} `{EqDecision K}.

(** [d.get(k)] *)
Fixpoint dict_get (d : list (K * V)) (k : K) : option V :=
  match d with
  | [] => None
  | (k', v) :: d' => if decide (k' = k) then Some v else dict_get d' k
  end.

(** [d[k] = v]: an existing key keeps its position, a new one goes last. *)
Fixpoint dict_set (d : list (K * V)) (k : K) (v : V) : list (K * V) :=
  match d with
  | [] => [(k, v)]
  | (k', v') :: d' =>
      if decide (k' = k) then (k, v) :: d' else (k', v') :: dict_set d' k v
  end.

Definition dict_keys (d : list (K * V)) : list K := map fst d.

End Dict.

(* ------------------------------------------------------------------ *)
(** ** Exceptions and the monad of effectful code *)

(** The exception classes the code tells apart: [except
    requests.RequestException] catches the first only, [except Exception]
    catches all three. *)
Inductive ExcClass := RequestException | KeyError | OtherException.

Record Exc := mkExc { exc_class : ExcClass; exc_str : string }.

Definition is_RequestException (e : Exc) : bool :=
  match exc_class e with RequestException => true | _ => false end.

Inductive outcome (A : Type) : Type :=
| Return (a : A)
| Raise (e : Exc).
Arguments Return {A} a.
Arguments Raise {A} e.

(** What [r = sess.get(...)] exposes to the scanner: [r.text] and
    [r.headers.get(name)]. *)
Record Response := mkResponse {
  text : string;
  headers : string -> option string
}.

(** The external collaborators.  [World] is everything outside the
    process (network, servers) together with the hidden state of the
    libraries. *)
Class Collaborators := {
  World : Type;
  Language : Type;
  Session : Type;
  (** [langcodes.Language.get(tag)] *)
  Language_get : string -> World -> World * outcome Language;
  (** [lang.is_valid()] *)
  Language_is_valid : Language -> World -> World * outcome bool;
  (** [requests.Session()] *)
  requests_Session : World -> World * Session;
  (** [sess.get(url, headers=headers, timeout=t)] *)
  Session_get :
    Session -> string -> list (string * string) -> Z -> World -> World * outcome Response
}.

Section Monad.
Context `{Collaborators}.

(** Process state: the world, the store of [@lru_cache] on
    [_validated_lang], and a log of the tags with which the body of
    [_validated_lang] was entered (a call counter for the oracle). *)
Record St := mkSt {
  world : World;
  lru : gmap string (option Language);
  calls : list string
}.

Definition M (A : Type) : Type := St -> St * outcome A.

Definition ret {A} (a : A) : M A := fun st => (st, Return a).

Definition raise {A} (e : Exc) : M A := fun st => (st, Raise e).

Definition bind {A B} (m : M A) (k : A -> M B) : M B :=
  fun st =>
    match m st with
    | (st', Return a) => k a st'
    | (st', Raise e) => (st', Raise e)
    end.

(** [try: m  except <classes>: h] *)
Definition try_except {A} (m : M A) (catches : Exc -> bool) (h : Exc -> M A) : M A :=
  fun st =>
    match m st with
    | (st', Return a) => (st', Return a)
    | (st', Raise e) => if catches e then h e st' else (st', Raise e)
    end.

(** A call into a collaborator. *)
Definition call {A} (f : World -> World * outcome A) : M A :=
  fun st =>
    let '(w, o) := f (world st) in
    (mkSt w (lru st) (calls st), o).

Definition log_call (tag : string) : M unit :=
  fun st => (mkSt (world st) (lru st) (calls st ++ [tag]), Return tt).

(** [d[k]], raising [KeyError]. *)
Definition getitem {K V} `{EqDecision K} (d : list (K * V)) (k : K)
    (shown : string) : M V :=
  match dict_get d k with
  | Some v => ret v
  | None => raise (mkExc KeyError shown)
  end.

End Monad.

Notation "x <- m ;; k" := (bind m (fun x => k))
  (at level 100, m at next level, right associativity).

(* ------------------------------------------------------------------ *)
(** ** Regular expressions ([re.search]) *)

Module Re.

(** The fragment of Python's pattern language that the two patterns of
    [locale_used] are written in.  Repetition applies to a character
    class; there is one capturing group. *)
Inductive regex :=
| Lit (l : string)               (* literal text *)
| Cls (p : ascii -> bool)        (* one character of a class *)
| Star (p : ascii -> bool)       (* class*, greedy *)
| Plus (p : ascii -> bool)       (* class+, greedy *)
| WordB                          (* \b *)
| Group (r : regex)              (* ( ... ), group 1 *)
| Cat (r1 r2 : regex).

Definition code (c : ascii) : N := N_of_ascii c.

Definition between (lo hi : N) (c : ascii) : bool :=
  (lo <=? code c)%N && (code c <=? hi)%N.

(** [\w] on [str] patterns: alphanumeric code points and the underscore.
    Below 128 these are [0-9A-Za-z_]; from 128 to 255 Python counts the
    letters and numerals of Latin-1 (ª ² ³ µ ¹ º ¼ ½ ¾ À-Ö Ø-ö ø-ÿ). *)
Definition is_word (c : ascii) : bool :=
  between 48 57 c || between 65 90 c || between 97 122 c
  || (code c =? 95)%N
  || (code c =? 170)%N || between 178 179 c || (code c =? 181)%N
  || between 185 186 c || between 188 190 c
  || between 192 214 c || between 216 246 c || between 248 255 c.

(** A position in the subject: the character before it (if any) and the
    text after it. *)
Definition word_before (prev : option ascii) : bool :=
  match prev with Some c => is_word c | None => false end.

Definition word_after (s : string) : bool :=
  match s with String c _ => is_word c | EmptyString => false end.

(** [lit l prev s]: strip the literal [l] from the front of [s]. *)
Fixpoint lit (l : string) (prev : option ascii) (s : string)
    : option (option ascii * string) :=
  match l with
  | EmptyString => Some (prev, s)
  | String c l' =>
      match s with
      | String x s' => if Ascii.eqb x c then lit l' (Some x) s' else None
      | EmptyString => None
      end
  end.

(** The text between position [s] and the later position [s']. *)
Definition consumed (s s' : string) : string :=
  String.substring 0 (String.length s - String.length s') s.

Section Matcher.
Context {R : Type}.

(** Greedy repetition of a class: take as many characters as the class
    allows, then give them back one at a time until the rest of the
    pattern matches. *)
Fixpoint star (p : ascii -> bool) (k : option ascii -> string -> option R)
    (prev : option ascii) (s : string) : option R :=
  match s with
  | String c s' =>
      if p c then
        match star p k (Some c) s' with
        | Some r => Some r
        | None => k prev s
        end
      else k prev s
  | EmptyString => k prev s
  end.

(** Backtracking matcher in continuation-passing style.  [g] is the
    text of group 1 so far; [k] is the rest of the pattern. *)
Fixpoint rmatch (r : regex) (prev : option ascii) (s : string) (g : option string)
    (k : option ascii -> string -> option string -> option R) : option R :=
  match r with
  | Lit l =>
      match lit l prev s with
      | Some (prev', s') => k prev' s' g
      | None => None
      end
  | Cls p =>
      match s with
      | String c s' => if p c then k (Some c) s' g else None
      | EmptyString => None
      end
  | Star p => star p (fun prev' s' => k prev' s' g) prev s
  | Plus p =>
      match s with
      | String c s' =>
          if p c then star p (fun prev' s' => k prev' s' g) (Some c) s' else None
      | EmptyString => None
      end
  | WordB => if xorb (word_before prev) (word_after s) then k prev s g else None
  | Group r1 => rmatch r1 prev s g (fun prev' s' _ => k prev' s' (Some (consumed s s')))
  | Cat r1 r2 => rmatch r1 prev s g (fun prev' s' g' => rmatch r2 prev' s' g' k)
  end.
End Matcher.

(** A match object, reduced to [m.group(1)]. *)
Definition Match := option string.

Definition match_here (r : regex) (prev : option ascii) (s : string) : option Match :=
  rmatch r prev s None (fun _ _ g => Some g).

(** Try every start position, left to right. *)
Fixpoint search_from (r : regex) (prev : option ascii) (s : string) : option Match :=
  match match_here r prev s with
  | Some m => Some m
  | None =>
      match s with
      | String c s' => search_from r (Some c) s'
      | EmptyString => None
      end
  end.

(** [re.search(pattern, s)] *)
Definition search (r : regex) (s : string) : option Match := search_from r None s.

Definition group1 (m : Match) : option string := m.

End Re.

(* ------------------------------------------------------------------ *)
(** ** Reference data *)

Definition CODES : list (string * string) :=
  [ ("oci", "Occitan"); ("kab", "Kabyle"); ("kam", "Kamba"); ("kac", "Kachin");
    ("kal", "Greenlandic"); ("kar", "Karen"); ("kat", "Georgian");
    ("kau", "Kanuri"); ("kaw", "Kawi"); ("kaz", "Kazakh") ].

Definition SITES : list (string * (string * string)) :=
  [ ("1", ("DuckDuckGo", "https://duckduckgo.com/q=test "));
    ("2", ("Nextcloud", "https://demo2.nextcloud.com/index.php/login ")) ].

Definition DEVICES : list (string * (string * string)) :=
  [ ("1", ("desktop", EmptyString));
    ("2", ("mobile",
           "Mozilla/5.0 (Android 13; Mobile; rv:109.0) Gecko/109.0 Firefox/119.0")) ].

(** [test_one] does not read this table: it compares with [oc] itself. *)
Definition ALT_MAPPINGS : list (string * list string) := [ ("oci", [ "oc" ]) ].

Definition FALLBACKS : list string := [ "en" ].

(* ------------------------------------------------------------------ *)
(** ** [locale_used] *)

(** [[-a-zA-Z]] *)
Definition tag_char (c : ascii) : bool :=
  Ascii.eqb c "-" || Re.between 97 122 c || Re.between 65 90 c.

(** The class of the two quote characters, double (code 34) and single. *)
Definition quote_char (c : ascii) : bool :=
  Ascii.eqb c "034" || Ascii.eqb c "'".

(** [[^>]] *)
Definition not_gt (c : ascii) : bool := negb (Ascii.eqb c ">").

(** The end of the body pattern: [\b], then [lang=], then a quote of
    either kind, then group 1 [([-a-zA-Z]+)]. *)
Definition lang_attr_re : Re.regex :=
  Re.Cat Re.WordB
    (Re.Cat (Re.Lit "lang=")
      (Re.Cat (Re.Cls quote_char) (Re.Group (Re.Plus tag_char)))).

(** The end of the body pattern tried at a position, as the last part of
    a match: what group 1 then holds. *)
Definition attr_here (prev : option ascii) (s : string) : option Re.Match :=
  Re.rmatch lang_attr_re prev s None (fun _ _ g' => Some g').

(** The body pattern: [<html], then [[^>]*], then the above. *)
Definition html_lang_re : Re.regex :=
  Re.Cat (Re.Lit "<html") (Re.Cat (Re.Star not_gt) lang_attr_re).

(** [ae=l=([-a-zA-Z]+)] *)
Definition cookie_re : Re.regex :=
  Re.Cat (Re.Lit "ae=l=") (Re.Group (Re.Plus tag_char)).

(** [cookie or] the empty string *)
Definition or_empty (cookie : string) : string :=
  if Py.truthy cookie then cookie else EmptyString.

Definition locale_used (html cookie : string) : option string :=
  match Re.search html_lang_re html with
  | Some m => Re.group1 m
  | None =>
      match Re.search cookie_re (or_empty cookie) with
      | Some m => Re.group1 m
      | None => None
      end
  end.

(* ------------------------------------------------------------------ *)
(** ** The scanner *)

Section Scanner.
Context `{Collaborators}.

(** The function under [@lru_cache]: ask the oracle; any exception
    means the tag is not valid. *)
Definition validated_lang_body (tag : string) : M (option Language) :=
  _ <- log_call tag ;;
  try_except
    (lang <- call (Language_get tag) ;;
     valid <- call (Language_is_valid lang) ;;
     ret (if valid : bool then Some lang else None))
    (fun _ => true)
    (fun _ => ret None).

(** [@lru_cache(maxsize=None)]: a stored result is returned without
    running the body; a returned result is stored; nothing is evicted. *)
Definition _validated_lang (tag : string) : M (option Language) :=
  fun st =>
    match lru st !! tag with
    | Some r => (st, Return r)
    | None =>
        match validated_lang_body tag st with
        | (st', Return r) =>
            (mkSt (world st') (<[tag := r]> (lru st')) (calls st'), Return r)
        | (st', Raise e) => (st', Raise e)
        end
    end.

(** What the process may do between two calls of [_validated_lang]:
    other calls of it, and calls into the collaborators, which change
    the world only. *)
Inductive process_step : St -> St -> Prop :=
| step_validate tag st st' o :
    _validated_lang tag st = (st', o) -> process_step st st'
| step_world st w :
    process_step st (mkSt w (lru st) (calls st)).

(** Lines 85-101 of [test_one]: alternates, fall-backs, normal verdict. *)
Definition verdict (code got : string) (loose : bool) : string * string :=
  if String.eqb code "oci" && String.eqb got "oc" then ("alt", got)
  else if String.eqb code "kab" && Py.startswith got "kab" then ("alt", got)
  else if Py.in_tuple code ["oci"; "kab"]
          && existsb (fun f => Py.startswith got f) FALLBACKS
  then ("fallback", got)
  else
    let label :=
      if loose then (if Py.startswith got code then "ok" else "collision")
      else (if String.eqb got code then "ok" else "collision") in
    (label, got).

(** Lines 78-101: from the extracted locale to the entry of [results]. *)
Definition classify (code : string) (got : option string) (loose : bool)
    : M (string * string) :=
  match got with
  | None => ret ("unk", "no locale hint")
  | Some got =>
      if negb (Py.truthy got) then ret ("unk", "no locale hint")
      else
        lang <- _validated_lang got ;;
        match lang with
        | None => ret ("unk", "invalid locale " +:+ Py.repr got)
        | Some _ => ret (verdict code got loose)
        end
  end.

Definition request_headers (code ua : string) : list (string * string) :=
  let hdrs := [("Accept-Language", code)] in
  if Py.truthy ua then dict_set hdrs "User-Agent" ua else hdrs.

(** One iteration of the loop of [test_one]: the value stored at
    [results[code]]. *)
Definition probe_code (sess : Session) (url ua : string) (loose : bool)
    (code : string) : M (string * string) :=
  let hdrs := request_headers code ua in
  r <- try_except
         (r <- call (Session_get sess url hdrs 15) ;; ret (inr r))
         is_RequestException
         (fun e => ret (inl ("error", exc_str e))) ;;
  match r with
  | inl entry => ret entry
  | inr r =>
      let got := locale_used (text r) (default EmptyString (headers r "Set-Cookie")) in
      classify code got loose
  end.

Fixpoint test_one_loop (sess : Session) (url ua : string) (loose : bool)
    (items : list (string * string)) (results : list (string * (string * string)))
    : M (list (string * (string * string))) :=
  match items with
  | [] => ret results
  | (code, name) :: items' =>
      entry <- probe_code sess url ua loose code ;;
      test_one_loop sess url ua loose items' (dict_set results code entry)
  end.

Definition test_one (sess : Session) (url ua : string) (loose : bool)
    : M (list (string * (string * string))) :=
  test_one_loop sess url ua loose CODES [].

Definition JobResult : Type :=
  string * string * string * string * list (string * (string * string)).

Definition _job (sk dk : string) (loose : bool) : M JobResult :=
  site <- getitem SITES sk (Py.repr sk) ;;
  dev <- getitem DEVICES dk (Py.repr dk) ;;
  sess <- call (fun w => let '(w', s) := requests_Session w in (w', Return s)) ;;
  res <- test_one sess (snd site) (snd dev) loose ;;
  ret (sk, dk, fst site, fst dev, res).

Definition combos : list (string * string) :=
  [ ("1", "1"); ("1", "2"); ("2", "1"); ("2", "2") ].

Definition ReportKey : Type := string * string * string.
Definition Report : Type := list (ReportKey * (string * string)).

(** A future: the job has run, its result or exception is kept. *)
Definition Future : Type := outcome JobResult.

(** The worker pool.  Jobs run to completion one after the other in the
    order in which they finish ([order], chosen by the scheduler); an
    exception in a job is stored in its future.  The four threads of the
    source share the cache of [_validated_lang], and how their calls
    interleave is not modelled: what is proved of a batch run is what
    each job, or each call of the validator, gives by itself, and not how
    often jobs running at the same time ask the oracle about one tag. *)
Fixpoint run_pool (order : list (string * string)) (loose : bool)
    : M (list Future) :=
  match order with
  | [] => ret []
  | (sk, dk) :: order' =>
      fut <- (fun st => let '(st', o) := _job sk dk loose st in (st', Return o)) ;;
      futs <- run_pool order' loose ;;
      ret (fut :: futs)
  end.

(** [fut.result()] *)
Definition result (fut : Future) : M JobResult :=
  match fut with
  | Return v => ret v
  | Raise e => raise e
  end.

(** [for code in ("oci", "kab"): report[(site_n, dev_n, code)] = res[code]] *)
Fixpoint merge_codes (site_n dev_n : string) (res : list (string * (string * string)))
    (codes : list string) (report : Report) : M Report :=
  match codes with
  | [] => ret report
  | code :: codes' =>
      entry <- getitem res code (Py.repr code) ;;
      merge_codes site_n dev_n res codes'
        (dict_set report (site_n, dev_n, code) entry)
  end.

(** [for fut in as_completed(futures): ...] *)
Fixpoint merge_completed (futs : list Future) (report : Report) : M Report :=
  match futs with
  | [] => ret report
  | fut :: futs' =>
      job <- result fut ;;
      let '(sk, dk, site_n, dev_n, res) := job in
      report' <- merge_codes site_n dev_n res ["oci"; "kab"] report ;;
      merge_completed futs' report'
  end.

(** The keys [(s, d, c)] of the items of [report] whose label is
    [collision], in the order of the report. *)
Definition collisions_of (report : Report) : list ReportKey :=
  map fst (filter (fun kv => String.eqb (fst (snd kv)) "collision" = true) report).

(** [report_mode], returning what it prints: the report and the
    collision list.  [as_completed] is the scheduler: it rearranges the
    submitted jobs into the order in which they complete. *)
Definition report_mode
    (as_completed : list (string * string) -> list (string * string))
    (loose : bool) : M (Report * list ReportKey) :=
  futures <- run_pool (as_completed combos) loose ;;
  report <- merge_completed futures [] ;;
  ret (report, collisions_of report).

End Scanner.

(* ------------------------------------------------------------------ *)
(** ** Scripted collaborators, for running the scanner on examples *)

Module Mock.

(** Tags the scripted oracle accepts; on any other tag it raises. *)
Definition known : list string :=
  [ "oc"; "kab"; "en-US"; "kat-GE"; "de"; "fr" ].

Definition get_language (tag : string) (w : unit) : unit * outcome string :=
  (w, if existsb (String.eqb tag) known then Return tag
      else Raise (mkExc OtherException "LanguageTagError")).

Definition page (tag : string) : Response :=
  mkResponse ("<!doctype html><html class='js' lang='" +:+ tag +:+ "'><body>")
             (fun _ => None).

Definition cookie_only (tag : string) : Response :=
  mkResponse "<html><body>"
             (fun name => if String.eqb name "Set-Cookie"
                          then Some ("p=1; ae=l=" +:+ tag +:+ "; Path=/")
                          else None).

Definition accept (hdrs : list (string * string)) : string :=
  default EmptyString (dict_get hdrs "Accept-Language").

(** The first site answers every code, except that the request for
    [kam] times out.  The second site is either up, or its client
    fails with an exception that is not a [RequestException]. *)
Definition serve (second_up : bool) (url : string)
    (hdrs : list (string * string)) : outcome Response :=
  let code := accept hdrs in
  if String.eqb url "https://duckduckgo.com/q=test " then
    if String.eqb code "kam" then Raise (mkExc RequestException "Read timed out.")
    else Return (if String.eqb code "oci" then page "oc"
                 else if String.eqb code "kab" then page "kab"
                 else if String.eqb code "kat" then page "kat-GE"
                 else if String.eqb code "kal" then page "zz"
                 else if String.eqb code "kar"
                      then mkResponse "<p lang='fr'>" (fun _ => None)
                 else page "en-US")
  else if second_up then
    Return (if String.eqb code "oci" then page "de"
            else if String.eqb code "kab" then cookie_only "fr"
            else cookie_only "en-US")
  else Raise (mkExc OtherException "client misconfigured").

Definition collaborators (second_up : bool) : Collaborators := {|
  World := unit;
  Language := string;
  Session := unit;
  Language_get := get_language;
  Language_is_valid := fun _ w => (w, Return true);
  requests_Session := fun w => (w, tt);
  Session_get := fun _ url hdrs _ w => (w, serve second_up url hdrs)
|}.

Definition up : Collaborators := collaborators true.
Definition down : Collaborators := collaborators false.

(** A fresh process: empty cache, no oracle call yet. *)
Definition start (second_up : bool) : @St (collaborators second_up) :=
  @mkSt (collaborators second_up) tt ∅ [].

(** The process after its first validation of [tag], a known tag. *)
Definition validated (tag : string) : @St up :=
  @mkSt up tt (<[tag := Some tag]> ∅) [tag].

Definition duck : string := "https://duckduckgo.com/q=test ".

End Mock.

(* ------------------------------------------------------------------ *)
(** ** Markers in a text, stated without the matcher *)

Module Str.

(** Every character of [s] is in the class [p]. *)
Fixpoint all (p : ascii -> bool) (s : string) : bool :=
  match s with
  | EmptyString => true
  | String c s' => p c && all p s'
  end.

(** The character before the position reached by reading [s] from a
    position that has [prev] before it. *)
Fixpoint last_char (prev : option ascii) (s : string) : option ascii :=
  match s with
  | EmptyString => prev
  | String c s' => last_char (Some c) s'
  end.

(** [s] does not go on with a character of the class [p]. *)
Definition stops (p : ascii -> bool) (s : string) : Prop :=
  match s with
  | EmptyString => True
  | String c _ => p c = false
  end.

(** The longest prefix of [s] in the class [p], and what follows it. *)
Fixpoint take_while (p : ascii -> bool) (s : string) : string :=
  match s with
  | EmptyString => EmptyString
  | String c s' => if p c then String c (take_while p s') else EmptyString
  end.

Fixpoint drop_while (p : ascii -> bool) (s : string) : string :=
  match s with
  | EmptyString => EmptyString
  | String c s' => if p c then drop_while p s' else s
  end.

End Str.

(** [t] is a tag followed by [rest]: a non-empty run of letters and
    hyphens that [rest] does not continue. *)
Definition tag_run (t rest : string) : Prop :=
  t <> EmptyString /\ Str.all tag_char t = true /\ Str.stops tag_char rest.

(** The body has a marker for tag [t]: after [pre] comes [<html], then
    [mid] without [>], then, not directly after a word character, [lang=],
    a quote of either kind and the tag. *)
Definition html_marker (html pre mid t : string) : Prop :=
  exists q rest,
    html = pre +:+ "<html" +:+ mid +:+ "lang=" +:+ String q (t +:+ rest)
    /\ Str.all not_gt mid = true
    /\ Re.word_before (Str.last_char None ("<html" +:+ mid)) = false
    /\ quote_char q = true
    /\ tag_run t rest.

(** The cookie text has [ae=l=] and the tag [t] after [pre]. *)
Definition cookie_marker (cookie pre t : string) : Prop :=
  exists rest, cookie = pre +:+ "ae=l=" +:+ t +:+ rest /\ tag_run t rest.

(** The marker the body pattern settles on: at the leftmost [<html] that
    has a marker, the one furthest from it. *)
Definition selected_html_marker (html pre mid t : string) : Prop :=
  html_marker html pre mid t
  /\ forall pre' mid' t',
       html_marker html pre' mid' t' ->
       String.length pre <= String.length pre'
       /\ (String.length pre' = String.length pre ->
           String.length mid' <= String.length mid).

(** The first marker of the cookie text. *)
Definition first_cookie_marker (cookie pre t : string) : Prop :=
  cookie_marker cookie pre t
  /\ forall pre' t',
       cookie_marker cookie pre' t' -> String.length pre <= String.length pre'.

(** What the specification takes for a marker in the body: [lang=], a
    quote, the tag and the same quote again, anywhere in the text. *)
Definition lang_marker_anywhere (body t : string) : Prop :=
  exists pre q rest,
    body = pre +:+ "lang=" +:+ String q (t +:+ String q rest)
    /\ quote_char q = true
    /\ t <> EmptyString /\ Str.all tag_char t = true.

(** Example texts.  [dq] is the double quote. *)
Definition dq : string := String "034" EmptyString.

Definition body_html_de : string := "<html lang=" +:+ dq +:+ "de" +:+ dq +:+ ">".

Definition body_div_fr : string :=
  "<html><body><div lang=" +:+ dq +:+ "fr" +:+ dq +:+ ">bonjour</div></body></html>".

Definition body_p_de : string :=
  "<html><body><p lang=" +:+ dq +:+ "de" +:+ dq +:+ ">hallo</p></body></html>".

Definition body_html_de_en : string :=
  "<html lang=" +:+ dq +:+ "de" +:+ dq +:+ " lang=" +:+ dq +:+ "en" +:+ dq +:+ ">".

(* ------------------------------------------------------------------ *)
(** ** Conditions on the collaborators *)

(** The HTTP client fails with [requests.RequestException] only: every
    failure of a request is a transport failure. *)
Definition transport_failures_only `{Collaborators} : Prop :=
  forall sess url hdrs t w w' e,
    Session_get sess url hdrs t w = (w', Raise e) ->
    exc_class e = RequestException.

(** The report keys of one target: its site and device names with each
    of the two codes of interest. *)
Definition combo_keys (combo : string * string) : list (string * string * string) :=
  match dict_get SITES combo.1, dict_get DEVICES combo.2 with
  | Some site, Some dev => [ (site.1, dev.1, "oci"); (site.1, dev.1, "kab") ]
  | _, _ => []
  end.

(** The report keys a completed job contributes. *)
Definition fut_keys `{Collaborators} (fut : Future) : list ReportKey :=
  match fut with
  | Return (_, _, site_n, dev_n, _) => [ (site_n, dev_n, "oci"); (site_n, dev_n, "kab") ]
  | Raise _ => []
  end.

(** A future that holds the result of a probe over the whole code table. *)
Definition fut_ok `{Collaborators} (fut : Future) : Prop :=
  exists sk dk site_n dev_n res,
    fut = Return (sk, dk, site_n, dev_n, res) /\ dict_keys res = dict_keys CODES.

(* ------------------------------------------------------------------ *)
(** ** Bookkeeping of the validator and of the HTTP client *)

(** A tag as the two patterns capture it: a non-empty run of letters and
    hyphens. *)
Definition tag_shaped (t : string) : Prop :=
  t <> EmptyString /\ Str.all tag_char t = true.

(** The log of oracle entries and the cache tell the same story: no tag
    was logged twice, and the logged tags are the cached ones. *)
Definition cache_coherent `{Collaborators} (st : St) : Prop :=
  NoDup (calls st)
  /\ forall tag, tag ∈ calls st <-> is_Some (lru st !! tag).

(** A request as [sess.get] receives it: URL, headers, timeout. *)
Definition Request : Type := string * list (string * string) * Z.

(** Any collaborators, with a record of the requests handed to
    [sess.get] kept beside their world.  Nothing else changes. *)
Definition recording (C : Collaborators) : Collaborators := {|
  World := @World C * list Request;
  Language := @Language C;
  Session := @Session C;
  Language_get := fun tag wl =>
    let '(w, o) := @Language_get C tag wl.1 in ((w, wl.2), o);
  Language_is_valid := fun lang wl =>
    let '(w, o) := @Language_is_valid C lang wl.1 in ((w, wl.2), o);
  requests_Session := fun wl =>
    let '(w, sess) := @requests_Session C wl.1 in ((w, wl.2), sess);
  Session_get := fun sess url hdrs t wl =>
    let '(w, o) := @Session_get C sess url hdrs t wl.1 in
    ((w, wl.2 ++ [(url, hdrs, t)]), o)
|}.

(** A state of the recording process without the record. *)
Definition erase {C : Collaborators} (st : @St (recording C)) : @St C :=
  @mkSt C (@world (recording C) st).1 (@lru (recording C) st) (@calls (recording C) st).

(** [mR], run with the record, does what [mC] does without it. *)
Definition same_run {C : Collaborators} {A}
    (mR : @M (recording C) A) (mC : @M C A) : Prop :=
  forall st, mC (erase st) = (erase (mR st).1, (mR st).2).

(** The requests on record. *)
Definition requests_of {C : Collaborators} (st : @St (recording C)) : list Request :=
  (@world (recording C) st).2.

(** The request [test_one] makes for a code. *)
Definition request_for (url ua code : string) : Request :=
  (url, request_headers code ua, 15%Z).

(** Every request fails, with a transport failure. *)
Definition network_down `{Collaborators} : Prop :=
  forall sess url hdrs t w,
    exists w' e,
      Session_get sess url hdrs t w = (w', Raise e)
      /\ exc_class e = RequestException.

Module Offline.

(** Collaborators without a network: every request is refused.  The
    oracle is the scripted one. *)
Definition collaborators : Collaborators := {|
  World := unit;
  Language := string;
  Session := unit;
  Language_get := Mock.get_language;
  Language_is_valid := fun _ w => (w, Return true);
  requests_Session := fun w => (w, tt);
  Session_get := fun _ _ _ _ w =>
    (w, Raise (mkExc RequestException "Connection refused"))
|}.

Definition start : @St collaborators := @mkSt collaborators tt ∅ [].

End Offline.

(** A computation that moves the process by steps of [process_step]
    only, whatever it returns or raises. *)
Definition stepwise `{Collaborators} {A} (m : M A) : Prop :=
  forall st st' o, m st = (st', o) -> rtc process_step st st'.

(** An entry of a strict probe beside the entry of a loose probe for the
    same code: same evidence, and the same label unless strict says
    [collision] where loose says [ok], the tag then being a proper
    extension of the code. *)
Definition relaxed (strict loose : string * (string * string)) : Prop :=
  strict.1 = loose.1
  /\ strict.2.2 = loose.2.2
  /\ (strict.2.1 = loose.2.1
      \/ (strict.2.1 = "collision" /\ loose.2.1 = "ok"
          /\ Py.startswith strict.2.2 strict.1 = true
          /\ strict.2.2 <> strict.1)).

(* ------------------------------------------------------------------ *)
(** ** The console and the interactive mode *)

Module Console.

(** [c.isspace()] for a code point below 256: tab to carriage return,
    the four separators 28 to 31, space, next line (133) and no-break
    space (160). *)
Definition is_space (c : ascii) : bool :=
  Re.between 9 13 c || Re.between 28 32 c
  || (Re.code c =? 133)%N || (Re.code c =? 160)%N.

Fixpoint lstrip (s : string) : string :=
  match s with
  | EmptyString => EmptyString
  | String c s' => if is_space c then lstrip s' else s
  end.

Fixpoint rstrip (s : string) : string :=
  match s with
  | EmptyString => EmptyString
  | String c s' =>
      match rstrip s' with
      | EmptyString => if is_space c then EmptyString else String c EmptyString
      | r => String c r
      end
  end.

(** [s.strip()] *)
Definition strip (s : string) : string := rstrip (lstrip s).

(** Printed text.  The strings of this development hold code points
    below 256; the two characters beyond that the program prints (an
    ellipsis and an arrow) stand as code points of their own. *)
Inductive piece :=
| Chars (s : string)
| Point (codepoint : N).

Definition nl : string := String "010" EmptyString.

(** The console: the lines still to be read from standard input (without
    their line ends), and what was written to standard output, one entry
    per write. *)
Record console := mkConsole {
  stdin : list string;
  stdout : list (list piece)
}.

(** [print(text)] *)
Definition print (text : list piece) (con : console) : console :=
  mkConsole (stdin con) (stdout con ++ [text ++ [Chars nl]]).

Definition EOFError : Exc := mkExc OtherException "EOF when reading a line".

(** [for k, (name, _) in table.items(): print(f"  {k}  {name}")], with two
    spaces before the key and two after it. *)
Fixpoint print_menu (table : list (string * (string * string))) (con : console)
    : console :=
  match table with
  | [] => con
  | (k, (name, _)) :: table' =>
      print_menu table' (print [Chars ("  " +:+ k +:+ "  " +:+ name)] con)
  end.

Definition prompt : list piece := [Chars "Enter 1 or 2: "].
Definition complaint : list piece := [Chars "Please type 1 or 2."; Chars nl].

(** The [while True] loop of [choose_site] and [choose_device], over the
    lines still on standard input.  [input] writes the prompt, then
    reads a line or raises [EOFError] at the end of input; the line is
    stripped and looked up; a line that is no key is answered with the
    complaint, and the loop goes round. *)
Fixpoint ask (table : list (string * (string * string))) (lines : list string)
    (out : list (list piece)) : console * outcome (string * string) :=
  match lines with
  | [] => (mkConsole [] (out ++ [prompt]), Raise EOFError)
  | line :: lines' =>
      match dict_get table (strip line) with
      | Some entry => (mkConsole lines' (out ++ [prompt]), Return entry)
      | None => ask table lines' (out ++ [prompt] ++ [complaint])
      end
  end.

Definition choose (title : string) (table : list (string * (string * string)))
    (con : console) : console * outcome (string * string) :=
  let con := print [Chars (nl +:+ title)] con in
  let con := print_menu table con in
  ask table (stdin con) (stdout con).

End Console.

Definition choose_site (con : Console.console)
    : Console.console * outcome (string * string) :=
  Console.choose "Choose site to test:" SITES con.

Definition choose_device (con : Console.console)
    : Console.console * outcome (string * string) :=
  Console.choose "Choose device profile:" DEVICES con.

(** A line answers a menu when, stripped, it is one of the two keys. *)
Definition answer (line : string) : Prop :=
  Console.strip line = "1" \/ Console.strip line = "2".

#[global] Instance answer_dec line : Decision (answer line).
Proof. unfold answer. apply _. Defined.

(** What the loop writes for the lines it turns down: the prompt that
    read the line and the complaint that followed. *)
Definition retries (skipped : list string) : list (list Console.piece) :=
  flat_map (fun _ => [Console.prompt; Console.complaint]) skipped.

(** The line printed for a code: label, code, name, an arrow (code point
    8594) and the evidence, two spaces between them. *)
Definition row (code name label got : string) : list Console.piece :=
  [ Console.Chars (label +:+ "  " +:+ code +:+ "  " +:+ name +:+ "  ");
    Console.Point 8594;
    Console.Chars ("  " +:+ got) ].

(** [for code, name in CODES.items(): label, got = results[code]; print(...)] *)
Fixpoint print_rows (results : list (string * (string * string)))
    (items : list (string * string)) (con : Console.console)
    : Console.console * outcome unit :=
  match items with
  | [] => (con, Return tt)
  | (code, name) :: items' =>
      match dict_get results code with
      | Some (label, got) =>
          print_rows results items' (Console.print (row code name label got) con)
      | None => (con, Raise (mkExc KeyError (Py.repr code)))
      end
  end.

(** The line that announces the probe: URL, device name, and an ellipsis
    (code point 8230) between two line ends. *)
Definition testing (site_url device_name : string) : list Console.piece :=
  [ Console.Chars (Console.nl +:+ "Testing " +:+ site_url +:+ "  ("
                   +:+ device_name +:+ ") ");
    Console.Point 8230;
    Console.Chars Console.nl ].

Definition interactive_mode `{Collaborators} (loose : bool) (con : Console.console)
    (st : St) : (St * Console.console) * outcome unit :=
  match choose_site con with
  | (con, Raise e) => ((st, con), Raise e)
  | (con, Return (site_name, site_url)) =>
      match choose_device con with
      | (con, Raise e) => ((st, con), Raise e)
      | (con, Return (device_name, ua)) =>
          let con := Console.print (testing site_url device_name) con in
          match (sess <- call (fun w => let '(w', s) := requests_Session w in
                                        (w', Return s)) ;;
                 test_one sess site_url ua loose) st with
          | (st, Raise e) => ((st, con), Raise e)
          | (st, Return results) =>
              let '(con, o) := print_rows results CODES con in
              ((st, con), o)
          end
      end
  end.

(* ================================================================== *)
(** * Properties *)

(** ** Strings *)

Lemma startswith_true (s p : string) :
  Py.startswith s p = true <-> exists rest, s = p +:+ rest.
Proof.
  unfold Py.startswith. revert s.
  induction p as [|c p IH]; intros s.
  - destruct s; simpl; split; eauto.
  - destruct s as [|x s]; simpl.
    + split; [discriminate | intros [rest Hrest]; discriminate].
    + destruct (ascii_dec c x) as [->|Hne].
      * rewrite IH. split; intros [rest Hrest]; exists rest.
        -- by rewrite Hrest.
        -- by injection Hrest.
      * split; [discriminate | intros [rest Hrest]; injection Hrest; congruence].
Qed.

Lemma startswith_refl (s : string) : Py.startswith s s = true.
Proof.
  unfold Py.startswith. induction s as [|c s IH]; simpl; [done|].
  by destruct (ascii_dec c c).
Qed.

Lemma startswith_nonempty (s p : string) :
  Py.startswith s p = true -> p <> EmptyString -> Py.truthy s = true.
Proof.
  intros Hp Hne. destruct s; [|done].
  destruct p; [done | discriminate].
Qed.

(** ** The validator *)

Section Validator.
Context `{Collaborators}.

(** The body of [_validated_lang] never raises, and logs its tag *)
Lemma validated_lang_body_returns (tag : string) (st : St) :
  exists r st',
    validated_lang_body tag st = (st', Return r)
    /\ calls st' = calls st ++ [tag] /\ lru st' = lru st.
Proof.
  unfold validated_lang_body, bind, try_except, log_call, call, ret; simpl.
  destruct (Language_get tag (world st)) as [w1 [lang|e]]; simpl.
  - destruct (Language_is_valid lang w1) as [w2 [v|e]]; simpl; eauto.
  - eauto.
Qed.

(** When the oracle raises, in [Language.get] or in [is_valid], the body
    answers [None]. *)
Lemma validated_lang_body_oracle_raises (tag : string) (st : St) :
  (forall w e, Language_get tag (world st) = (w, Raise e) ->
     snd (validated_lang_body tag st) = Return None)
  /\ (forall w lang w' e,
        Language_get tag (world st) = (w, Return lang) ->
        Language_is_valid lang w = (w', Raise e) ->
        snd (validated_lang_body tag st) = Return None).
Proof.
  unfold validated_lang_body, bind, try_except, log_call, call, ret; simpl.
  split.
  - intros w e ->. reflexivity.
  - intros w lang w' e -> . simpl. intros ->. reflexivity.
Qed.

Lemma validated_lang_returns (tag : string) (st : St) :
  exists r st', _validated_lang tag st = (st', Return r) /\ lru st' !! tag = Some r.
Proof.
  unfold _validated_lang.
  destruct (lru st !! tag) as [r|] eqn:Hc; [eauto|].
  destruct (validated_lang_body_returns tag st) as (r & st' & -> & _ & _).
  eexists _, _. split; [reflexivity|]. simpl. apply lookup_insert_eq.
Qed.

Lemma validated_lang_cached (tag : string) (st : St) (r : option Language) :
  lru st !! tag = Some r -> _validated_lang tag st = (st, Return r).
Proof. intros Hc. unfold _validated_lang. by rewrite Hc. Qed.

(** Entries of the cache are never replaced or evicted. *)
Lemma validated_lang_keeps (tag tag' : string) (st st' : St) o r :
  _validated_lang tag' st = (st', o) ->
  lru st !! tag = Some r -> lru st' !! tag = Some r.
Proof.
  unfold _validated_lang. intros Hrun Hc.
  destruct (lru st !! tag') as [r'|] eqn:Hc'; [by simplify_eq|].
  destruct (validated_lang_body_returns tag' st) as (r' & st1 & Hb & _ & Hl).
  rewrite Hb in Hrun. simplify_eq. simpl. rewrite Hl.
  rewrite lookup_insert_ne; [done|]. intros ->. congruence.
Qed.

End Validator.

Section Memo.
Context `{Collaborators}.

(** Once a tag is cached, nothing the process does changes its entry
    or enters the oracle with it again. *)
Lemma cached_forever (tag : string) (r : option Language) (st1 st2 : St) :
  rtc process_step st1 st2 ->
  lru st1 !! tag = Some r ->
  lru st2 !! tag = Some r
  /\ count_occ string_dec (calls st2) tag = count_occ string_dec (calls st1) tag.
Proof.
  induction 1 as [st|st st' st'' Hstep _ IH]; [done|].
  intros Hc.
  assert (lru st' !! tag = Some r
          /\ count_occ string_dec (calls st') tag
             = count_occ string_dec (calls st) tag) as [Hc' Hn].
  { destruct Hstep as [tag' st st' o Hrun|st w]; [|done].
    split; [by eapply validated_lang_keeps|].
    unfold _validated_lang in Hrun.
    destruct (lru st !! tag') as [r'|] eqn:Hc'; [by simplify_eq|].
    destruct (validated_lang_body_returns tag' st) as (r' & st1 & Hb & Hl & _).
    rewrite Hb in Hrun. simplify_eq. simpl. rewrite Hl.
    rewrite count_occ_app. simpl.
    destruct (string_dec tag' tag) as [->|]; [congruence | lia]. }
  destruct (IH Hc') as [? ?]. split; [done | congruence].
Qed.

(** C8. The validator is memoized: a call of [_validated_lang] always
    returns (no exception propagates); whatever the process does
    afterwards, validating the same string again returns the same
    result without entering the oracle (state and call log unchanged by
    that call, and the number of oracle calls for the string stays what
    it was after the first call, which added at most one); and when the
    oracle raises, the result is [None], that is, invalid. *)
Theorem validated_lang_memoized (tag : string) (st : St) :
  exists r st1,
    _validated_lang tag st = (st1, Return r)
    /\ count_occ string_dec (calls st1) tag
       <= S (count_occ string_dec (calls st) tag)
    /\ (lru st = ∅ -> calls st = [] ->
        count_occ string_dec (calls st1) tag = 1)
    /\ (forall st2, rtc process_step st1 st2 ->
          _validated_lang tag st2 = (st2, Return r)
          /\ count_occ string_dec (calls st2) tag
             = count_occ string_dec (calls st1) tag)
    /\ (lru st !! tag = None ->
        (forall w e, Language_get tag (world st) = (w, Raise e) -> r = None)
        /\ (forall w lang w' e,
              Language_get tag (world st) = (w, Return lang) ->
              Language_is_valid lang w = (w', Raise e) -> r = None)).
Proof.
  destruct (validated_lang_returns tag st) as (r & st1 & Hrun & Hc1).
  exists r, st1. split; [done|].
  assert (lru st !! tag = None ->
          snd (validated_lang_body tag st) = Return r
          /\ calls st1 = calls st ++ [tag]) as Hmiss.
  { intros Hc. unfold _validated_lang in Hrun. rewrite Hc in Hrun.
    destruct (validated_lang_body_returns tag st) as (r' & st' & Hb & Hl & _).
    rewrite Hb in Hrun. simplify_eq. by rewrite Hb. }
  assert (count_occ string_dec (calls st ++ [tag]) tag
          = S (count_occ string_dec (calls st) tag)) as Hcount.
  { rewrite count_occ_app. simpl. destruct (string_dec tag tag); [lia | done]. }
  split; [|split; [|split]].
  - destruct (lru st !! tag) as [r0|] eqn:Hc.
    + rewrite (validated_lang_cached _ _ _ Hc) in Hrun. simplify_eq. lia.
    + destruct (Hmiss eq_refl) as [_ ->]. by rewrite Hcount.
  - intros Hempty Hnil.
    destruct Hmiss as [_ Hl]; [rewrite Hempty; apply lookup_empty|].
    rewrite Hl, Hcount, Hnil. done.
  - intros st2 Hsteps.
    destruct (cached_forever tag r st1 st2 Hsteps Hc1) as [Hc2 Hn].
    split; [by apply validated_lang_cached | done].
  - intros Hc. destruct (Hmiss Hc) as [Hr _].
    destruct (validated_lang_body_oracle_raises tag st) as [Hget Hval].
    split.
    + intros w e Hg. specialize (Hget w e Hg). congruence.
    + intros w lang w' e Hg Hv. specialize (Hval w lang w' e Hg Hv). congruence.
Qed.

End Memo.

(** ** The classifier *)

Section Classifier.
Context `{Collaborators}.

(** With a valid tag, [classify] is [verdict]. *)
Lemma classify_valid (code tag : string) (loose : bool) (lang : Language)
    (st st' : St) :
  _validated_lang tag st = (st', Return (Some lang)) ->
  Py.truthy tag = true ->
  classify code (Some tag) loose st = (st', Return (verdict code tag loose)).
Proof.
  intros Hvalid Hne. unfold classify. rewrite Hne. simpl.
  unfold bind. by rewrite Hvalid.
Qed.

(** [classify] returns one of the two [unk] entries or [verdict]. *)
Lemma classify_cases (code : string) (got : option string) (loose : bool)
    (st st' : St) (entry : string * string) :
  classify code got loose st = (st', Return entry) ->
  fst entry = "unk" \/ exists tag, got = Some tag /\ entry = verdict code tag loose.
Proof.
  unfold classify, bind, ret. destruct got as [tag|]; [|intros; simplify_eq; by left].
  destruct (negb (Py.truthy tag)); [intros; simplify_eq; by left|].
  destruct (_validated_lang tag st) as [st1 [[lang|]|e]];
    intros; simplify_eq; eauto.
Qed.

Lemma in_tuple_interest (code : string) :
  Py.in_tuple code ["oci"; "kab"] = true <-> code = "oci" \/ code = "kab".
Proof.
  unfold Py.in_tuple. simpl. rewrite !orb_true_iff, !String.eqb_eq.
  intuition discriminate.
Qed.

(** The labels of [verdict]. *)
Lemma verdict_labels (code tag : string) (loose : bool) :
  snd (verdict code tag loose) = tag
  /\ (fst (verdict code tag loose) = "ok"
      \/ fst (verdict code tag loose) = "collision"
      \/ (fst (verdict code tag loose) = "alt" \/ fst (verdict code tag loose) = "fallback")
         /\ (code = "oci" \/ code = "kab")).
Proof.
  unfold verdict.
  destruct (String.eqb code "oci" && String.eqb tag "oc") eqn:E1.
  { apply andb_true_iff in E1 as [E1 _]. apply String.eqb_eq in E1. simpl. auto 6. }
  destruct (String.eqb code "kab" && Py.startswith tag "kab") eqn:E2.
  { apply andb_true_iff in E2 as [E2 _]. apply String.eqb_eq in E2. simpl. auto 6. }
  destruct (Py.in_tuple code ["oci"; "kab"] && _) eqn:E3.
  { apply andb_true_iff in E3 as [E3 _]. apply in_tuple_interest in E3. simpl. auto 6. }
  simpl. split; [done|].
  destruct loose; [destruct (Py.startswith tag code) | destruct (String.eqb tag code)]; auto.
Qed.

(** C4. For the two codes of interest and a valid tag, in either mode:
    [oci] with tag [oc] is [(alt, oc)]; [kab] with a tag that starts
    with [kab] is [(alt, tag)]; and otherwise, when the tag starts with
    a prefix of the fallback set, the entry is [(fallback, tag)]. The
    fallback set is [{en}]. *)
Theorem alternate_then_fallback (tag : string) (lang : Language)
    (st st' : St) (loose : bool)
    (Hvalid : _validated_lang tag st = (st', Return (Some lang))) :
  (tag = "oc" ->
     classify "oci" (Some tag) loose st = (st', Return ("alt", "oc")))
  /\ (Py.startswith tag "kab" = true ->
        classify "kab" (Some tag) loose st = (st', Return ("alt", tag)))
  /\ (forall code,
        code = "oci" \/ code = "kab" ->
        ~ (code = "oci" /\ tag = "oc") ->
        ~ (code = "kab" /\ Py.startswith tag "kab" = true) ->
        (exists f, f ∈ FALLBACKS /\ Py.startswith tag f = true) ->
        classify code (Some tag) loose st = (st', Return ("fallback", tag)))
  /\ FALLBACKS = ["en"].
Proof.
  split; [|split; [|split; [|done]]].
  - intros ->. by rewrite (classify_valid _ _ _ _ _ _ Hvalid).
  - intros Hkab.
    rewrite (classify_valid _ _ _ _ _ _ Hvalid);
      [|by eapply startswith_nonempty].
    unfold verdict. by rewrite Hkab.
  - intros code Hcode Hoc Hkab (f & Hf & Hpre).
    unfold FALLBACKS in Hf. apply list_elem_of_singleton in Hf as ->.
    rewrite (classify_valid _ _ _ _ _ _ Hvalid);
      [|by eapply startswith_nonempty].
    unfold verdict.
    destruct (String.eqb code "oci" && String.eqb tag "oc") eqn:E1.
    { apply andb_true_iff in E1 as [?%String.eqb_eq ?%String.eqb_eq]. tauto. }
    destruct (String.eqb code "kab" && Py.startswith tag "kab") eqn:E2.
    { apply andb_true_iff in E2 as [?%String.eqb_eq ?]. tauto. }
    apply in_tuple_interest in Hcode. rewrite Hcode. simpl. by rewrite Hpre.
Qed.

(** C6. In the normal-verdict branch (valid tag, alternate and fallback
    rules not applicable) the evidence is the tag and the label is [ok]
    or [collision]: in loose mode [ok] exactly when the tag starts with
    the code, in strict mode [ok] exactly when the tag equals the code.
    Code [kat] with the valid tag [kat-GE] is [ok] in loose mode and
    [collision] in strict mode. *)
Theorem normal_verdict (code tag : string) (lang : Language) (st st' : St)
    (Hvalid : _validated_lang tag st = (st', Return (Some lang)))
    (Hnonempty : tag <> EmptyString)
    (Hoc : ~ (code = "oci" /\ tag = "oc"))
    (Hkab : ~ (code = "kab" /\ Py.startswith tag "kab" = true))
    (Hfallback : ~ ((code = "oci" \/ code = "kab")
                    /\ exists f, f ∈ FALLBACKS /\ Py.startswith tag f = true)) :
  (exists label,
      classify code (Some tag) true st = (st', Return (label, tag))
      /\ (label = "ok" <-> Py.startswith tag code = true)
      /\ (label = "collision" <-> Py.startswith tag code = false))
  /\ (exists label,
        classify code (Some tag) false st = (st', Return (label, tag))
        /\ (label = "ok" <-> tag = code)
        /\ (label = "collision" <-> tag <> code))
  /\ (code = "kat" -> tag = "kat-GE" ->
      classify code (Some tag) true st = (st', Return ("ok", "kat-GE"))
      /\ classify code (Some tag) false st = (st', Return ("collision", "kat-GE"))).
Proof.
  assert (Py.truthy tag = true) as Hne by (by destruct tag).
  assert (forall loose, verdict code tag loose =
            (if loose then (if Py.startswith tag code then "ok" else "collision")
             else (if String.eqb tag code then "ok" else "collision"), tag)) as Hv.
  { intros loose. unfold verdict.
    destruct (String.eqb code "oci" && String.eqb tag "oc") eqn:E1.
    { apply andb_true_iff in E1 as [?%String.eqb_eq ?%String.eqb_eq]. tauto. }
    destruct (String.eqb code "kab" && Py.startswith tag "kab") eqn:E2.
    { apply andb_true_iff in E2 as [?%String.eqb_eq ?]. tauto. }
    destruct (Py.in_tuple code ["oci"; "kab"] && _) eqn:E3; [|done].
    apply andb_true_iff in E3 as [E3%in_tuple_interest E4].
    apply existsb_exists in E4 as (f & Hf%list_elem_of_In & Hpre).
    exfalso. apply Hfallback. eauto. }
  split; [|split].
  - eexists. split; [rewrite (classify_valid _ _ _ _ _ _ Hvalid Hne), Hv; reflexivity|].
    destruct (Py.startswith tag code); split; split; congruence.
  - eexists. split; [rewrite (classify_valid _ _ _ _ _ _ Hvalid Hne), Hv; reflexivity|].
    destruct (String.eqb_spec tag code); split; split; congruence.
  - intros -> ->. by rewrite !(classify_valid _ _ _ _ _ _ Hvalid Hne).
Qed.

(** C10. Code [kab] with the valid tag [kab], an exact match of the
    requested code, is [(alt, kab)] in both modes, never [ok]: the
    prefix rule for [kab] runs before the generic comparison. *)
Theorem kab_exact_match_is_alt (lang : Language) (st st' : St) (loose : bool)
    (Hvalid : _validated_lang "kab" st = (st', Return (Some lang))) :
  classify "kab" (Some "kab") loose st = (st', Return ("alt", "kab"))
  /\ forall label evidence,
       classify "kab" (Some "kab") loose st = (st', Return (label, evidence)) ->
       label <> "ok".
Proof.
  assert (classify "kab" (Some "kab") loose st = (st', Return ("alt", "kab"))) as Hc.
  { by rewrite (classify_valid _ _ _ _ _ _ Hvalid). }
  split; [done|]. intros label evidence. rewrite Hc. intros; simplify_eq. done.
Qed.

End Classifier.

(** ** Dictionaries *)

Section DictFacts.
Context {K V : Type} `{EqDecision K}.
Implicit Types (d : list (K * V)) (k : K) (v : V).

Lemma dict_get_set_eq d k v : dict_get (dict_set d k v) k = Some v.
Proof.
  induction d as [|[k' v'] d IH]; simpl.
  - by rewrite decide_True.
  - destruct (decide (k' = k)) as [->|Hne]; simpl.
    + by rewrite decide_True.
    + by rewrite decide_False.
Qed.

Lemma dict_get_set_ne d k k' v :
  k <> k' -> dict_get (dict_set d k v) k' = dict_get d k'.
Proof.
  intros Hne. induction d as [|[k0 v0] d IH]; simpl.
  - by rewrite decide_False.
  - destruct (decide (k0 = k)) as [->|Hne0]; simpl.
    + by rewrite !decide_False.
    + by rewrite IH.
Qed.

Lemma dict_keys_set_new d k v :
  k ∉ dict_keys d -> dict_keys (dict_set d k v) = dict_keys d ++ [k].
Proof.
  unfold dict_keys. induction d as [|[k' v'] d IH]; simpl; [done|].
  intros Hnotin. apply not_elem_of_cons in Hnotin as [Hne Hnotin].
  rewrite decide_False by done. simpl. by rewrite IH.
Qed.

Lemma dict_get_elem_of d k v : dict_get d k = Some v -> (k, v) ∈ d.
Proof.
  induction d as [|[k' v'] d IH]; simpl; [done|].
  destruct (decide (k' = k)) as [->|Hne].
  - intros [= ->]. left.
  - intros Hget. right. auto.
Qed.

Lemma dict_get_is_Some d k : k ∈ dict_keys d -> is_Some (dict_get d k).
Proof.
  unfold dict_keys. induction d as [|[k' v'] d IH]; simpl.
  - intros Hin. by apply elem_of_nil in Hin.
  - intros Hin. destruct (decide (k' = k)); [eauto|].
    apply elem_of_cons in Hin as [->|Hin]; [done | auto].
Qed.

Lemma dict_elem_of_get d k v :
  NoDup (dict_keys d) -> (k, v) ∈ d -> dict_get d k = Some v.
Proof.
  unfold dict_keys. induction d as [|[k' v'] d IH]; simpl.
  - intros _ Hin. by apply elem_of_nil in Hin.
  - intros [Hnotin Hnd]%NoDup_cons Hin.
    apply elem_of_cons in Hin as [[= -> ->]|Hin].
    + by rewrite decide_True.
    + destruct (decide (k' = k)) as [->|Hne]; [|auto].
      exfalso. apply Hnotin. apply list_elem_of_fmap. by exists (k, v).
Qed.

End DictFacts.

(** ** The probe runner *)

Section Probe.
Context `{Collaborators}.
Implicit Types (results : list (string * (string * string))).

Lemma classify_returns (code : string) (got : option string) (loose : bool)
    (st : St) :
  exists entry st', classify code got loose st = (st', Return entry).
Proof.
  unfold classify. destruct got as [tag|]; [|unfold ret; eauto].
  destruct (negb (Py.truthy tag)); [unfold ret; eauto|].
  unfold bind.
  destruct (validated_lang_returns tag st) as (r & st' & -> & _).
  destruct r; unfold ret; eauto.
Qed.

(** A transport failure is recorded as [(error, str(e))]. *)
Lemma probe_code_transport_failure sess url ua loose code (st : St) w e :
  Session_get sess url (request_headers code ua) 15 (world st) = (w, Raise e) ->
  exc_class e = RequestException ->
  probe_code sess url ua loose code st
  = (mkSt w (lru st) (calls st), Return ("error", exc_str e)).
Proof.
  intros Hget Hclass.
  unfold probe_code, bind, try_except, call, ret. rewrite Hget.
  unfold is_RequestException. by rewrite Hclass.
Qed.

(** A request that is answered is classified from its body and its
    [Set-Cookie] header. *)
Lemma probe_code_response sess url ua loose code (st : St) w r :
  Session_get sess url (request_headers code ua) 15 (world st) = (w, Return r) ->
  probe_code sess url ua loose code st
  = classify code
      (locale_used (text r) (default EmptyString (headers r "Set-Cookie")))
      loose (mkSt w (lru st) (calls st)).
Proof.
  intros Hget. unfold probe_code, bind, try_except, call, ret. by rewrite Hget.
Qed.

Lemma probe_code_returns sess url ua loose code (st : St) :
  transport_failures_only ->
  exists entry st', probe_code sess url ua loose code st = (st', Return entry).
Proof.
  intros Htransport.
  destruct (Session_get sess url (request_headers code ua) 15 (world st))
    as [w [r|e]] eqn:Hget.
  - unfold probe_code, bind, try_except, call, ret. rewrite Hget.
    apply classify_returns.
  - erewrite probe_code_transport_failure; eauto.
Qed.

(** The labels one iteration can store. *)
Lemma probe_code_labels sess url ua loose code (st st' : St) label evidence :
  probe_code sess url ua loose code st = (st', Return (label, evidence)) ->
  label = "error" \/ label = "unk" \/ label = "ok" \/ label = "collision"
  \/ (label = "alt" \/ label = "fallback") /\ (code = "oci" \/ code = "kab").
Proof.
  unfold probe_code, bind, try_except, call, ret.
  destruct (Session_get sess url (request_headers code ua) 15 (world st))
    as [w [r|e]].
  - intros Hc. apply classify_cases in Hc as [Hunk|(tag & _ & Hv)]; [auto|].
    destruct (verdict_labels code tag loose) as [_ Hl].
    rewrite <- Hv in Hl. simpl in Hl. tauto.
  - destruct (is_RequestException e); intros; simplify_eq. auto.
Qed.

(** The loop of [test_one]: keys outside [items] are left alone, and
    each code of [items] ends up with the entry its own iteration
    computed. *)
Lemma test_one_loop_entries sess url ua loose items :
  NoDup (dict_keys items) ->
  forall results (st st' : St) out,
    test_one_loop sess url ua loose items results st = (st', Return out) ->
    (forall k, k ∉ dict_keys items -> dict_get out k = dict_get results k)
    /\ (forall code, code ∈ dict_keys items ->
          exists st1 st2 entry,
            probe_code sess url ua loose code st1 = (st2, Return entry)
            /\ dict_get out code = Some entry).
Proof.
  unfold dict_keys.
  induction items as [|[code name] items IH]; simpl.
  - intros _ results st st' out [= -> ->]. split; [done|].
    intros code Hin. by apply elem_of_nil in Hin.
  - intros [Hnotin Hnd]%NoDup_cons results st st' out.
    unfold bind at 1.
    destruct (probe_code sess url ua loose code st) as [st1 [entry|e]] eqn:Hp;
      [|discriminate].
    intros Hloop. destruct (IH Hnd _ _ _ _ Hloop) as [Hout Hin].
    split.
    + intros k [Hne Hk]%not_elem_of_cons.
      rewrite (Hout k Hk). by apply dict_get_set_ne.
    + intros c [->|Hc]%elem_of_cons; [|auto].
      exists st, st1, entry. split; [done|].
      rewrite (Hout code Hnotin). apply dict_get_set_eq.
Qed.

Lemma test_one_loop_keys sess url ua loose items :
  NoDup (dict_keys items) ->
  forall results (st st' : St) out,
    test_one_loop sess url ua loose items results st = (st', Return out) ->
    (forall k, k ∈ dict_keys items -> k ∉ dict_keys results) ->
    dict_keys out = dict_keys results ++ dict_keys items.
Proof.
  induction items as [|[code name] items IH]; simpl.
  - intros _ results st st' out [= -> ->] _. by rewrite app_nil_r.
  - intros [Hnotin Hnd]%NoDup_cons results st st' out.
    unfold bind at 1.
    destruct (probe_code sess url ua loose code st) as [st1 [entry|e]];
      [|discriminate].
    intros Hloop Hfresh.
    assert (code ∉ dict_keys results) as Hcode by (apply Hfresh; left).
    rewrite (IH Hnd _ _ _ _ Hloop).
    + rewrite dict_keys_set_new by done. by rewrite <- app_assoc.
    + intros k Hk. rewrite dict_keys_set_new by done.
      intros [Hin|Hin%list_elem_of_singleton]%elem_of_app.
      * revert Hin. apply Hfresh. by right.
      * subst. done.
Qed.

Lemma test_one_loop_returns sess url ua loose items :
  transport_failures_only ->
  forall results (st : St),
    exists out st', test_one_loop sess url ua loose items results st = (st', Return out).
Proof.
  intros Htransport.
  induction items as [|[code name] items IH]; simpl; intros results st.
  - unfold ret. eauto.
  - unfold bind at 1.
    destruct (probe_code_returns sess url ua loose code st Htransport)
      as (entry & st1 & ->).
    apply IH.
Qed.

Lemma CODES_NoDup : NoDup (dict_keys CODES).
Proof. apply (bool_decide_unpack _). by vm_compute. Qed.

(** Whenever [test_one] returns, its keys are those of [CODES]. *)
Lemma test_one_keys sess url ua loose (st st' : St) results :
  test_one sess url ua loose st = (st', Return results) ->
  dict_keys results = dict_keys CODES.
Proof.
  intros Hrun.
  apply (test_one_loop_keys _ _ _ _ _ CODES_NoDup) in Hrun; [done|].
  intros k _ Hin. by apply elem_of_nil in Hin.
Qed.

Lemma test_one_returns sess url ua loose (st : St) :
  transport_failures_only ->
  exists results st', test_one sess url ua loose st = (st', Return results).
Proof. intros Htransport. by apply test_one_loop_returns. Qed.

(** C3. When requests fail with transport failures only, the probe
    runner returns a mapping whose keys are exactly those of the code
    table, each once and in table order; the entry of each code is the
    one its own iteration produced, and in an iteration whose request
    fails that entry is [(error, str(e))].  So a failed request for one
    code leaves every other code with its verdict. *)
Theorem test_one_total sess url ua loose (st : St)
    (Htransport : transport_failures_only) :
  exists results st',
    test_one sess url ua loose st = (st', Return results)
    /\ dict_keys results = dict_keys CODES
    /\ NoDup (dict_keys results)
    /\ forall code, code ∈ dict_keys CODES ->
         exists st1 st2 entry,
           probe_code sess url ua loose code st1 = (st2, Return entry)
           /\ dict_get results code = Some entry
           /\ forall w e,
                Session_get sess url (request_headers code ua) 15 (world st1)
                = (w, Raise e) ->
                entry = ("error", exc_str e).
Proof.
  destruct (test_one_returns sess url ua loose st Htransport)
    as (results & st' & Hrun).
  exists results, st'. split; [done|].
  pose proof (test_one_keys _ _ _ _ _ _ _ Hrun) as Hkeys.
  split; [done|]. split; [rewrite Hkeys; apply CODES_NoDup|].
  intros code Hcode.
  destruct (test_one_loop_entries _ _ _ _ _ CODES_NoDup _ _ _ _ Hrun) as [_ Hin].
  destruct (Hin code Hcode) as (st1 & st2 & entry & Hp & Hget).
  exists st1, st2, entry. do 2 (split; [done|]).
  intros w e Hfail.
  rewrite (probe_code_transport_failure _ _ _ _ _ _ _ _ Hfail) in Hp;
    [by simplify_eq | by eapply Htransport].
Qed.

(** C5. In the mapping [test_one] returns, a code labelled [alt] or
    [fallback] is one of the two codes of interest, [oci] and [kab];
    any other code of the table is labelled [ok], [collision], [unk]
    or [error]. *)
Theorem alt_fallback_only_for_interest sess url ua loose (st st' : St)
    results code label evidence
    (Hrun : test_one sess url ua loose st = (st', Return results))
    (Hentry : dict_get results code = Some (label, evidence)) :
  code ∈ dict_keys CODES
  /\ ((label = "alt" \/ label = "fallback") -> code = "oci" \/ code = "kab")
  /\ (code <> "oci" -> code <> "kab" ->
      label = "ok" \/ label = "collision" \/ label = "unk" \/ label = "error").
Proof.
  assert (code ∈ dict_keys CODES) as Hcode.
  { rewrite <- (test_one_keys _ _ _ _ _ _ _ Hrun).
    apply dict_get_elem_of in Hentry.
    apply list_elem_of_fmap. by exists (code, (label, evidence)). }
  split; [done|].
  destruct (test_one_loop_entries _ _ _ _ _ CODES_NoDup _ _ _ _ Hrun) as [_ Hin].
  destruct (Hin code Hcode) as (st1 & st2 & entry & Hp & Hget).
  assert (entry = (label, evidence)) as -> by congruence.
  apply probe_code_labels in Hp.
  split.
  - intros [-> | ->]; destruct Hp as [?|[?|[?|[?|[_ ?]]]]]; done.
  - intros Hoci Hkab. destruct Hp as [?|[?|[?|[?|[_ [?|?]]]]]]; auto; done.
Qed.

End Probe.

(** ** The batch coordinator *)

Section Batch.
Context `{Collaborators}.

(** A job that returns has looked up its site and device and probed the
    whole code table. *)
Lemma job_shape sk dk loose (st st' : St) job :
  _job sk dk loose st = (st', Return job) ->
  exists site dev res,
    dict_get SITES sk = Some site /\ dict_get DEVICES dk = Some dev
    /\ job = (sk, dk, site.1, dev.1, res)
    /\ dict_keys res = dict_keys CODES.
Proof.
  unfold _job, getitem, bind at 1.
  destruct (dict_get SITES sk) as [site|]; [|discriminate].
  unfold ret at 1, bind at 1.
  destruct (dict_get DEVICES dk) as [dev|]; [|discriminate].
  unfold ret at 1, bind at 1, call at 1.
  destruct (requests_Session (world st)) as [w sess].
  unfold bind at 1.
  match goal with |- context [test_one ?a ?b ?c ?d ?e] =>
    destruct (test_one a b c d e) as [st1 [res|e']] eqn:Hrun end; [|discriminate].
  unfold ret. intros [= <- <-].
  exists site, dev, res. repeat split; [done..|].
  by eapply test_one_keys.
Qed.

Lemma job_returns sk dk loose (st : St) site dev :
  transport_failures_only ->
  dict_get SITES sk = Some site -> dict_get DEVICES dk = Some dev ->
  exists res st',
    _job sk dk loose st = (st', Return (sk, dk, site.1, dev.1, res)).
Proof.
  intros Htransport Hsite Hdev.
  unfold _job, getitem, bind at 1. rewrite Hsite.
  unfold ret at 1, bind at 1. rewrite Hdev.
  unfold ret at 1, bind at 1, call at 1.
  destruct (requests_Session (world st)) as [w sess].
  unfold bind at 1.
  match goal with |- context [test_one ?a ?b ?c ?d ?e] =>
    destruct (test_one_returns a b c d e Htransport) as (res & st1 & ->) end.
  unfold ret. eauto.
Qed.

Lemma combos_lookup sk dk :
  (sk, dk) ∈ combos ->
  exists site dev, dict_get SITES sk = Some site /\ dict_get DEVICES dk = Some dev.
Proof.
  unfold combos. rewrite !elem_of_cons, elem_of_nil.
  intros [[= -> ->]|[[= -> ->]|[[= -> ->]|[[= -> ->]|[]]]]]; simpl; eauto.
Qed.

(** The pool stores every job's outcome and never raises itself. *)
Lemma run_pool_returns order loose (st : St) :
  exists futs st',
    run_pool order loose st = (st', Return futs)
    /\ Forall2 (fun combo fut =>
                  exists sa sb, _job combo.1 combo.2 loose sa = (sb, fut))
               order futs.
Proof.
  revert st. induction order as [|[sk dk] order IH]; intros st; simpl.
  - unfold ret. eauto.
  - unfold bind at 1.
    destruct (_job sk dk loose st) as [st1 fut] eqn:Hjob.
    unfold bind at 1.
    destruct (IH st1) as (futs & st' & -> & Hall).
    unfold ret. exists (fut :: futs), st'. split; [done|].
    constructor; [|done]. simpl. eauto.
Qed.

Lemma merge_codes_interest site_n dev_n res (report : Report) (st : St) :
  dict_keys res = dict_keys CODES ->
  exists oci kab,
    dict_get res "oci" = Some oci /\ dict_get res "kab" = Some kab
    /\ merge_codes site_n dev_n res ["oci"; "kab"] report st
       = (st, Return (dict_set (dict_set report (site_n, dev_n, "oci") oci)
                               (site_n, dev_n, "kab") kab)).
Proof.
  intros Hkeys.
  destruct (dict_get_is_Some res "oci") as [oci Hoci].
  { rewrite Hkeys. unfold dict_keys. simpl. set_solver. }
  destruct (dict_get_is_Some res "kab") as [kab Hkab].
  { rewrite Hkeys. unfold dict_keys. simpl. set_solver. }
  exists oci, kab. do 2 (split; [done|]).
  simpl. unfold getitem, bind, ret. by rewrite Hoci, Hkab.
Qed.

Lemma merge_completed_cons sk dk site_n dev_n res futs (report : Report) (st : St) :
  merge_completed (Return (sk, dk, site_n, dev_n, res) :: futs) report st
  = match merge_codes site_n dev_n res ["oci"; "kab"] report st with
    | (st', Return report') => merge_completed futs report' st'
    | (st', Raise e) => (st', Raise e)
    end.
Proof. reflexivity. Qed.

(** Merging completed jobs with pairwise distinct targets: the report
    grows by the two keys of each job, in completion order, and holds
    for each of them the entry of that job's probe. *)
Lemma merge_completed_ok (futs : list Future) :
  Forall fut_ok futs ->
  forall (report : Report) (st : St),
    NoDup (dict_keys report ++ flat_map fut_keys futs) ->
    exists report',
      merge_completed futs report st = (st, Return report')
      /\ dict_keys report' = dict_keys report ++ flat_map fut_keys futs
      /\ (forall k, k ∈ dict_keys report -> dict_get report' k = dict_get report k)
      /\ (forall sk dk site_n dev_n res code,
            Return (sk, dk, site_n, dev_n, res) ∈ futs ->
            code = "oci" \/ code = "kab" ->
            dict_get report' (site_n, dev_n, code) = dict_get res code).
Proof.
  induction 1 as [|fut futs Hfut _ IH]; intros report st Hnd.
  - exists report. simpl. unfold ret. rewrite app_nil_r. do 3 (split; [done|]).
    intros ?????? Hin. by apply elem_of_nil in Hin.
  - destruct Hfut as (sk & dk & site_n & dev_n & res & -> & Hkeys).
    simpl in Hnd. rewrite merge_completed_cons.
    destruct (merge_codes_interest site_n dev_n res report st Hkeys)
      as (oci & kab & Hoci & Hkab & ->).
    set (k1 := (site_n, dev_n, "oci")) in *.
    set (k2 := (site_n, dev_n, "kab")) in *.
    assert (k1 <> k2) as Hk12 by (unfold k1, k2; congruence).
    apply NoDup_app in Hnd as (Hnd1 & Hdisj & Hnd2).
    assert (k1 ∉ dict_keys report) as Hk1.
    { intros Hin. apply (Hdisj _ Hin). left. }
    assert (k2 ∉ dict_keys report) as Hk2.
    { intros Hin. apply (Hdisj _ Hin). right. left. }
    set (report1 := dict_set (dict_set report k1 oci) k2 kab).
    assert (dict_keys report1 = dict_keys report ++ [k1; k2]) as Hkeys1.
    { unfold report1. rewrite dict_keys_set_new.
      - rewrite dict_keys_set_new by done. by rewrite <- app_assoc.
      - rewrite dict_keys_set_new by done.
        intros [Hin|Hin%list_elem_of_singleton]%elem_of_app; done. }
    destruct (IH report1 st) as (report' & Hrun & Hkeys' & Hold & Hnew).
    { rewrite Hkeys1, <- app_assoc. simpl. apply NoDup_app. done. }
    exists report'. split; [done|]. split; [|split].
    + rewrite Hkeys', Hkeys1, <- app_assoc. done.
    + intros k Hk. rewrite Hold.
      * unfold report1. rewrite !dict_get_set_ne; [done|..]; intros <-; done.
      * rewrite Hkeys1. apply elem_of_app. by left.
    + intros sk' dk' site' dev' res' code [Heq|Hin]%elem_of_cons Hcode;
        [|by eapply Hnew].
      simplify_eq. destruct Hcode as [-> | ->].
      * rewrite Hold; [|rewrite Hkeys1; set_solver].
        unfold report1. rewrite dict_get_set_ne by done.
        by rewrite dict_get_set_eq.
      * rewrite Hold; [|rewrite Hkeys1; set_solver].
        unfold report1. by rewrite dict_get_set_eq.
Qed.

(** The first future that holds an exception ends the merge. *)
Lemma merge_completed_raises (pre post : list Future) e :
  Forall fut_ok pre ->
  forall (report : Report) (st : St),
    merge_completed (pre ++ Raise e :: post) report st = (st, Raise e).
Proof.
  induction 1 as [|fut pre Hfut _ IH]; intros report st.
  - done.
  - destruct Hfut as (sk & dk & site_n & dev_n & res & -> & Hkeys).
    rewrite <- app_comm_cons, merge_completed_cons.
    destruct (merge_codes_interest site_n dev_n res report st Hkeys)
      as (oci & kab & _ & _ & ->).
    apply IH.
Qed.

Lemma collisions_of_spec (report : Report) (key : ReportKey) :
  key ∈ collisions_of report
  <-> exists evidence, (key, ("collision", evidence)) ∈ report.
Proof.
  unfold collisions_of. rewrite list_elem_of_fmap. split.
  - intros ([k [label evidence]] & -> & Hin).
    apply list_elem_of_filter in Hin as [Hlabel Hin]. simpl in *.
    apply String.eqb_eq in Hlabel as ->. eauto.
  - intros (evidence & Hin). exists (key, ("collision", evidence)).
    split; [done|]. apply list_elem_of_filter. split; [|done].
    simpl. reflexivity.
Qed.

End Batch.

Section BatchTheorems.
Context `{Collaborators}.

Lemma combo_keys_lookup sk dk (site dev : string * string) :
  dict_get SITES sk = Some site -> dict_get DEVICES dk = Some dev ->
  combo_keys (sk, dk) = [ (site.1, dev.1, "oci"); (site.1, dev.1, "kab") ].
Proof. unfold combo_keys. cbn [fst snd]. by intros -> ->. Qed.

(** A future of the pool that holds a result holds the result of a probe
    of its own target over the whole code table. *)
Lemma pool_future_shape loose order (futs : list Future) :
  Forall2 (fun combo fut => exists sa sb, _job combo.1 combo.2 loose sa = (sb, fut))
          order futs ->
  Forall2 (fun combo fut =>
             forall job, fut = Return job ->
               fut_ok fut /\ fut_keys fut = combo_keys combo)
          order futs.
Proof.
  induction 1 as [|[sk dk] fut order futs (sa & sb & Hjob) _ IH];
    constructor; [|done].
  intros job ->. simpl in Hjob.
  destruct (job_shape _ _ _ _ _ _ Hjob) as (site & dev & res & Hsite & Hdev & -> & Hkeys).
  split; [unfold fut_ok; eauto 10|].
  simpl. by rewrite (combo_keys_lookup _ _ _ _ Hsite Hdev).
Qed.

Lemma pool_keys loose order (futs : list Future) :
  Forall2 (fun combo fut => exists sa sb, _job combo.1 combo.2 loose sa = (sb, fut))
          order futs ->
  Forall fut_ok futs ->
  flat_map fut_keys futs = flat_map combo_keys order.
Proof.
  intros Hshape%pool_future_shape.
  induction Hshape as [|combo fut order futs Hfut _ IH]; [done|].
  intros [(sk & dk & site_n & dev_n & res & -> & _) Hok]%Forall_cons.
  cbn [flat_map]. destruct (Hfut _ eq_refl) as [_ ->]. by rewrite IH.
Qed.

(** When requests fail with transport failures only, every job over the
    fixed targets returns. *)
Lemma pool_futures_returned loose order (futs : list Future) :
  transport_failures_only ->
  Forall2 (fun combo fut => exists sa sb, _job combo.1 combo.2 loose sa = (sb, fut))
          order futs ->
  (forall combo, combo ∈ order -> combo ∈ combos) ->
  Forall (fun fut => exists job, fut = Return job) futs.
Proof.
  intros Htransport.
  induction 1 as [|[sk dk] fut order futs (sa & sb & Hjob) _ IH]; intros Hin.
  - done.
  - destruct (combos_lookup sk dk) as (site & dev & Hsite & Hdev).
    { apply Hin. left. }
    destruct (job_returns sk dk loose sa site dev Htransport Hsite Hdev)
      as (res & st' & Hret).
    simpl in Hjob. rewrite Hret in Hjob. simplify_eq.
    constructor; [eauto|]. apply IH. intros c Hc. apply Hin. by right.
Qed.

(** A merge that returns has met no future holding an exception. *)
Lemma merge_completed_all_returned (futs : list Future) :
  Forall (fun fut => forall job, fut = Return job -> fut_ok fut) futs ->
  forall (report report' : Report) (st st' : St),
    merge_completed futs report st = (st', Return report') ->
    Forall fut_ok futs.
Proof.
  induction 1 as [|fut futs Hfut _ IH]; intros report report' st st' Hrun; [done|].
  destruct fut as [job|e]; [|by simpl in Hrun].
  destruct (Hfut job eq_refl) as (sk & dk & site_n & dev_n & res & [= ->] & Hkeys).
  rewrite merge_completed_cons in Hrun.
  destruct (merge_codes_interest site_n dev_n res report st Hkeys)
    as (oci & kab & _ & _ & Hmerge).
  rewrite Hmerge in Hrun.
  constructor; [unfold fut_ok; eauto 10 | by eapply IH].
Qed.

(** The report merged from the results of all the jobs of a batch. *)
Lemma merge_pool_report
    (as_completed : list (string * string) -> list (string * string))
    (loose : bool) (futs : list Future) (st : St) :
  as_completed combos ≡ₚ combos ->
  Forall2 (fun combo fut => exists sa sb, _job combo.1 combo.2 loose sa = (sb, fut))
          (as_completed combos) futs ->
  Forall fut_ok futs ->
  exists report,
    merge_completed futs [] st = (st, Return report)
    /\ length report = 2 * length combos
    /\ NoDup (dict_keys report)
    /\ dict_keys report ≡ₚ
         [ ("DuckDuckGo", "desktop", "oci"); ("DuckDuckGo", "desktop", "kab");
           ("DuckDuckGo", "mobile", "oci"); ("DuckDuckGo", "mobile", "kab");
           ("Nextcloud", "desktop", "oci"); ("Nextcloud", "desktop", "kab");
           ("Nextcloud", "mobile", "oci"); ("Nextcloud", "mobile", "kab") ]
    /\ (forall sk dk, (sk, dk) ∈ combos ->
          exists sa sb site_n dev_n res,
            _job sk dk loose sa = (sb, Return (sk, dk, site_n, dev_n, res))
            /\ forall code, code = "oci" \/ code = "kab" ->
                 dict_get report (site_n, dev_n, code) = dict_get res code).
Proof.
  intros Horder Hjobs Hok.
  pose proof (pool_keys _ _ _ Hjobs Hok) as Hkeys.
  assert (flat_map fut_keys futs ≡ₚ flat_map combo_keys combos) as Hperm.
  { rewrite Hkeys. by apply Permutation_flat_map. }
  assert (NoDup (flat_map combo_keys combos)) as Hnd.
  { apply (bool_decide_unpack _). by vm_compute. }
  destruct (merge_completed_ok futs Hok [] st) as (report & Hmerge & Hrk & _ & Hentries).
  { simpl. by rewrite Hperm. }
  simpl in Hrk.
  exists report. split; [done|]. split; [|split; [|split]].
  - transitivity (length (dict_keys report)); [unfold dict_keys; by rewrite length_map|].
    rewrite Hrk, Hperm. done.
  - by rewrite Hrk, Hperm.
  - by rewrite Hrk, Hperm.
  - intros sk dk Hin. rewrite <- Horder in Hin.
    apply list_elem_of_lookup in Hin as [i Hi].
    destruct (Forall2_lookup_l _ _ _ _ _ Hjobs Hi) as (fut & Hfut & sa & sb & Hjob).
    simpl in Hjob.
    assert (fut_ok fut) as (sk' & dk' & site_n & dev_n & res & -> & _).
    { eapply Forall_lookup_1; eauto. }
    destruct (job_shape _ _ _ _ _ _ Hjob) as (? & ? & ? & _ & _ & Hshape & _).
    simplify_eq.
    eexists sa, sb, _, _, _. split; [done|].
    intros code Hcode. eapply Hentries; [|done].
    eapply list_elem_of_lookup_2. done.
Qed.

(** C9. Whatever the order in which the four jobs complete: a batch run
    that completes returns a report with two entries per target, one for
    each code of interest.  Its keys are the eight (site, device, code)
    triples, each once; the entry of a key is the one that target's probe
    produced for that code; and the collision list holds exactly the keys
    of the report entries labelled [collision].  The run does complete
    when requests fail with transport failures only. *)
Theorem report_mode_complete
    (as_completed : list (string * string) -> list (string * string))
    (loose : bool) (st : St)
    (Horder : as_completed combos ≡ₚ combos) :
  (transport_failures_only ->
   exists out st', report_mode as_completed loose st = (st', Return out))
  /\ forall report collisions st',
       report_mode as_completed loose st = (st', Return (report, collisions)) ->
       length report = 2 * length combos
       /\ NoDup (dict_keys report)
       /\ dict_keys report ≡ₚ
            [ ("DuckDuckGo", "desktop", "oci"); ("DuckDuckGo", "desktop", "kab");
              ("DuckDuckGo", "mobile", "oci"); ("DuckDuckGo", "mobile", "kab");
              ("Nextcloud", "desktop", "oci"); ("Nextcloud", "desktop", "kab");
              ("Nextcloud", "mobile", "oci"); ("Nextcloud", "mobile", "kab") ]
       /\ (forall sk dk, (sk, dk) ∈ combos ->
             exists sa sb site_n dev_n res,
               _job sk dk loose sa = (sb, Return (sk, dk, site_n, dev_n, res))
               /\ forall code, code = "oci" \/ code = "kab" ->
                    dict_get report (site_n, dev_n, code) = dict_get res code)
       /\ (forall key,
             key ∈ collisions
             <-> exists evidence, (key, ("collision", evidence)) ∈ report).
Proof.
  destruct (run_pool_returns (as_completed combos) loose st)
    as (futs & st1 & Hpool & Hjobs).
  assert (Forall (fun fut => forall job, fut = Return job -> fut_ok fut) futs) as Hshape.
  { apply Forall_forall. intros fut [i Hi]%list_elem_of_lookup job ->.
    destruct (Forall2_lookup_r _ _ _ _ _ (pool_future_shape _ _ _ Hjobs) Hi)
      as (combo & _ & Hfut).
    by destruct (Hfut job eq_refl). }
  split.
  - intros Htransport.
    assert (Forall fut_ok futs) as Hok.
    { pose proof (pool_futures_returned loose _ _ Htransport Hjobs) as Hret.
      rewrite Forall_forall in Hret, Hshape. apply Forall_forall. intros fut Hin.
      destruct (Hret (fun combo Hc => proj1 (elem_of_Permutation_proper _ _ _ Horder) Hc)
                  fut Hin) as [job ->].
      by eapply Hshape. }
    destruct (merge_pool_report as_completed loose futs st1 Horder Hjobs Hok)
      as (report & Hmerge & _).
    exists (report, collisions_of report), st1.
    unfold report_mode, bind. by rewrite Hpool, Hmerge.
  - intros report collisions st' Hrun.
    unfold report_mode, bind at 1 in Hrun. rewrite Hpool in Hrun.
    unfold bind at 1 in Hrun.
    destruct (merge_completed futs [] st1) as [st2 [report0|e]] eqn:Hmerge0;
      [|discriminate].
    unfold ret in Hrun. simplify_eq.
    pose proof (merge_completed_all_returned futs Hshape _ _ _ _ Hmerge0) as Hok.
    destruct (merge_pool_report as_completed loose futs st1 Horder Hjobs Hok)
      as (merged & Hmerge & Hprops).
    rewrite Hmerge in Hmerge0. simplify_eq.
    destruct Hprops as (? & ? & ? & ?). do 4 (split; [done|]).
    apply collisions_of_spec.
Qed.

(** C2, as the code has it.  When the probe of a target raises, the
    exception leaves [report_mode] at the turn of that target's future,
    the first in completion order to hold one: the batch returns no
    report and no collision list, also for the targets that completed. *)
Theorem batch_failure_propagates
    (as_completed : list (string * string) -> list (string * string))
    (loose : bool) (st st1 : St) (pre post : list Future) (e : Exc)
    (Hpool : run_pool (as_completed combos) loose st
             = (st1, Return (pre ++ Raise e :: post)))
    (Hpre : forall fut, fut ∈ pre -> exists job, fut = Return job) :
  report_mode as_completed loose st = (st1, Raise e)
  /\ forall out, snd (report_mode as_completed loose st) <> Return out.
Proof.
  assert (report_mode as_completed loose st = (st1, Raise e)) as Hrun.
  { destruct (run_pool_returns (as_completed combos) loose st)
      as (futs & st' & Hpool' & Hjobs).
    rewrite Hpool in Hpool'. simplify_eq.
    unfold report_mode, bind at 1. rewrite Hpool. unfold bind at 1.
    rewrite merge_completed_raises; [done|].
    apply Forall_forall. intros fut Hin.
    destruct (Hpre fut Hin) as [[[[[sk dk] site_n] dev_n] res] ->].
    apply list_elem_of_lookup in Hin as [i Hi].
    assert ((pre ++ Raise e :: post) !! i = Some (Return (sk, dk, site_n, dev_n, res))) as Hi'.
    { by apply lookup_app_l_Some. }
    destruct (Forall2_lookup_r _ _ _ _ _ Hjobs Hi') as ([sk' dk'] & _ & sa & sb & Hjob).
    destruct (job_shape _ _ _ _ _ _ Hjob) as (? & ? & ? & _ & _ & Hshape & Hkeys).
    simplify_eq. unfold fut_ok. eauto 10. }
  split; [done|]. rewrite Hrun. done.
Qed.

End BatchTheorems.

(** ** Strings, continued *)

Section StrFacts.
Implicit Types (a b c s t : string) (p : ascii -> bool).

Lemma app_cons x a b : String x a +:+ b = String x (a +:+ b).
Proof. reflexivity. Qed.

Lemma app_empty_l a : EmptyString +:+ a = a.
Proof. reflexivity. Qed.

Lemma app_empty_r a : a +:+ EmptyString = a.
Proof. induction a as [|x a IH]; [done|]. by rewrite app_cons, IH. Qed.

Lemma str_app_assoc a b c : (a +:+ b) +:+ c = a +:+ b +:+ c.
Proof. induction a as [|x a IH]; [done|]. by rewrite !app_cons, IH. Qed.

Lemma length_app a b : String.length (a +:+ b) = String.length a + String.length b.
Proof. induction a as [|x a IH]; [done|]. rewrite app_cons. simpl. by rewrite IH. Qed.

Lemma all_app p a b : Str.all p (a +:+ b) = Str.all p a && Str.all p b.
Proof.
  induction a as [|x a IH]; [done|]. rewrite app_cons. simpl.
  by rewrite IH, andb_assoc.
Qed.

Lemma last_char_app prev a b :
  Str.last_char prev (a +:+ b) = Str.last_char (Str.last_char prev a) b.
Proof.
  revert prev. induction a as [|x a IH]; intros prev; [done|].
  rewrite app_cons. simpl. apply IH.
Qed.

(** Two ways of cutting one string: the shorter first part is a prefix
    of the longer. *)
Lemma app_split a b a' b' :
  a +:+ b = a' +:+ b' ->
  String.length a <= String.length a' ->
  exists c, a' = a +:+ c /\ b = c +:+ b'.
Proof.
  revert a'. induction a as [|x a IH]; intros a' Heq Hlen.
  - exists a'. by rewrite app_empty_l in *.
  - destruct a' as [|x' a']; [simpl in Hlen; lia|].
    rewrite !app_cons in Heq. injection Heq as -> Heq.
    destruct (IH a' Heq) as (c & -> & ->); [simpl in Hlen; lia|].
    exists c. by rewrite app_cons.
Qed.

Lemma app_split_eq a b a' b' :
  a +:+ b = a' +:+ b' ->
  String.length a = String.length a' ->
  a = a' /\ b = b'.
Proof.
  intros Heq Hlen.
  destruct (app_split a b a' b' Heq) as (c & -> & ->); [lia|].
  rewrite length_app in Hlen.
  destruct c; [|simpl in Hlen; lia].
  by rewrite app_empty_r, app_empty_l.
Qed.

Lemma substring_0_app a b : String.substring 0 (String.length a) (a +:+ b) = a.
Proof.
  induction a as [|x a IH].
  - simpl. by destruct (EmptyString +:+ b).
  - rewrite app_cons. simpl. by rewrite IH.
Qed.

Lemma consumed_app a b : Re.consumed (a +:+ b) b = a.
Proof.
  unfold Re.consumed. rewrite length_app.
  replace (String.length a + String.length b - String.length b)
    with (String.length a) by lia.
  apply substring_0_app.
Qed.

Lemma take_drop_while p s : s = Str.take_while p s +:+ Str.drop_while p s.
Proof.
  induction s as [|x s IH]; [done|]. simpl.
  destruct (p x); [|done]. by rewrite app_cons, <- IH.
Qed.

Lemma take_while_all p s : Str.all p (Str.take_while p s) = true.
Proof.
  induction s as [|x s IH]; [done|]. simpl.
  destruct (p x) eqn:Hx; [|done]. simpl. by rewrite Hx.
Qed.

Lemma drop_while_stops p s : Str.stops p (Str.drop_while p s).
Proof.
  induction s as [|x s IH]; [done|]. simpl.
  destruct (p x) eqn:Hx; [done|]. simpl. done.
Qed.

(** The run is determined by its two properties. *)
Lemma span_unique p a b :
  Str.all p a = true -> Str.stops p b ->
  Str.take_while p (a +:+ b) = a /\ Str.drop_while p (a +:+ b) = b.
Proof.
  intros Hall Hstop. induction a as [|x a IH].
  - rewrite app_empty_l. destruct b as [|y b]; [done|].
    simpl in *. by rewrite Hstop.
  - rewrite app_cons. simpl in *.
    apply andb_true_iff in Hall as [Hx Hall]. rewrite Hx.
    destruct (IH Hall) as [-> ->]. done.
Qed.

End StrFacts.

(** ** The matcher *)

Section MatcherFacts.
Implicit Types (a b s : string) (p : ascii -> bool) (prev : option ascii).

Lemma lit_Some l prev s prev' s' :
  Re.lit l prev s = Some (prev', s')
  <-> s = l +:+ s' /\ prev' = Str.last_char prev l.
Proof.
  revert prev s. induction l as [|x l IH]; intros prev s; simpl.
  - rewrite app_empty_l. split; [by intros [= -> ->] | by intros [-> ->]].
  - destruct s as [|y s]; [split; [done | intros [? _]; discriminate]|].
    rewrite app_cons.
    destruct (Ascii.eqb_spec y x) as [->|Hne].
    + rewrite IH. split; intros [Hs ->]; split; congruence.
    + split; [done | intros [[= ? _] _]; done].
Qed.

(** Greedy repetition fails exactly when the rest of the pattern fails
    after every admissible number of characters. *)
Lemma star_None {R} p (k : option ascii -> string -> option R) prev s :
  Re.star p k prev s = None
  <-> forall a b, s = a +:+ b -> Str.all p a = true ->
        k (Str.last_char prev a) b = None.
Proof.
  revert prev. induction s as [|x s IH]; intros prev; simpl.
  - split.
    + intros Hk a b Hab _. destruct a; [|discriminate].
      rewrite app_empty_l in Hab. by subst.
    + intros Hall. by apply (Hall EmptyString EmptyString).
  - assert (k prev (String x s) = None
            <-> forall a b, String x s = a +:+ b -> a = EmptyString ->
                  k (Str.last_char prev a) b = None) as Hnow.
    { split.
      - intros Hk a b Hab ->. rewrite app_empty_l in Hab. by subst.
      - intros Hall. by apply (Hall EmptyString (String x s)). }
    destruct (p x) eqn:Hx.
    + destruct (Re.star p k (Some x) s) as [r|] eqn:Hstar.
      * split; [done|]. intros Hall.
        assert (Re.star p k (Some x) s = None) as Hnone; [|congruence].
        apply IH. intros a b -> Ha.
        apply (Hall (String x a) b); [done|]. simpl. by rewrite Hx.
      * rewrite Hnow. split.
        -- intros Hempty a b Hab Ha. destruct a as [|y a]; [by apply Hempty|].
           rewrite app_cons in Hab. injection Hab as <- ->.
           simpl in Ha. rewrite Hx in Ha. simpl in *.
           by apply (proj1 (IH (Some x))).
        -- intros Hall a b Hab ->. by apply Hall.
    + rewrite Hnow. split.
      * intros Hempty a b Hab Ha. destruct a as [|y a]; [by apply Hempty|].
        rewrite app_cons in Hab. injection Hab as <- ->.
        simpl in Ha. by rewrite Hx in Ha.
      * intros Hall a b Hab ->. by apply Hall.
Qed.

(** Greedy repetition succeeds with the longest admissible run after
    which the rest of the pattern succeeds. *)
Lemma star_Some {R} p (k : option ascii -> string -> option R) prev s r :
  Re.star p k prev s = Some r
  <-> exists a b,
        s = a +:+ b /\ Str.all p a = true
        /\ k (Str.last_char prev a) b = Some r
        /\ forall a' b', s = a' +:+ b' -> Str.all p a' = true ->
             String.length a < String.length a' ->
             k (Str.last_char prev a') b' = None.
Proof.
  revert prev r. induction s as [|x s IH]; intros prev r.
  - simpl. split.
    + intros Hk. exists EmptyString, EmptyString. do 3 (split; [done|]).
      intros a' b' Hab _ Hlen. destruct a'; [simpl in Hlen; lia | discriminate].
    + intros (a & b & Hab & _ & Hk & _). destruct a; [|discriminate].
      rewrite app_empty_l in Hab. by subst.
  - assert (forall a b, String x s = a +:+ b -> Str.all p a = true ->
              a = EmptyString /\ b = String x s
              \/ exists a1, a = String x a1 /\ s = a1 +:+ b
                   /\ p x = true /\ Str.all p a1 = true) as Hcut.
    { intros a b Hab Ha. destruct a as [|y a]; [left; by rewrite app_empty_l in Hab|].
      right. rewrite app_cons in Hab. injection Hab as <- ->.
      simpl in Ha. apply andb_true_iff in Ha as [? ?]. eauto. }
    simpl. destruct (p x) eqn:Hx.
    + destruct (Re.star p k (Some x) s) as [r0|] eqn:Hstar.
      * destruct (proj1 (IH (Some x) r0) Hstar) as (a0 & b0 & Hs0 & Ha0 & Hk0 & Hmax0).
        split.
        -- intros [= <-]. exists (String x a0), b0.
           split; [by rewrite app_cons, <- Hs0|].
           split; [simpl; by rewrite Hx|]. split; [done|].
           intros a' b' Hab Ha' Hlen.
           destruct (Hcut a' b' Hab Ha') as [[-> _]|(a1 & -> & Hs & _ & Ha1)];
             [simpl in Hlen; lia|].
           apply Hmax0; [done..|]. simpl in Hlen. lia.
        -- intros (a & b & Hab & Ha & Hk & Hmax).
           destruct (Hcut a b Hab Ha) as [[-> ->]|(a1 & -> & Hs & _ & Ha1)].
           ++ specialize (Hmax (String x a0) b0).
              rewrite app_cons, <- Hs0 in Hmax. specialize (Hmax eq_refl).
              simpl in Hmax. rewrite Hx, Ha0 in Hmax.
              rewrite Hmax in Hk0; [done | done | lia].
           ++ assert (Re.star p k (Some x) s = Some r) as Hr; [|congruence].
              apply IH. exists a1, b. do 3 (split; [done|]).
              intros a' b' Hab' Ha' Hlen.
              apply (Hmax (String x a') b').
              ** by rewrite app_cons, <- Hab'.
              ** simpl. by rewrite Hx.
              ** simpl. lia.
      * pose proof (proj1 (star_None p k (Some x) s) Hstar) as Hnone.
        split.
        -- intros Hk. exists EmptyString, (String x s). do 3 (split; [done|]).
           intros a' b' Hab Ha' Hlen.
           destruct (Hcut a' b' Hab Ha') as [[-> _]|(a1 & -> & Hs & _ & Ha1)];
             [simpl in Hlen; lia|].
           by apply Hnone.
        -- intros (a & b & Hab & Ha & Hk & _).
           destruct (Hcut a b Hab Ha) as [[-> ->]|(a1 & -> & Hs & _ & Ha1)]; [done|].
           simpl in Hk. rewrite (Hnone a1 b Hs Ha1) in Hk. done.
    + split.
      * intros Hk. exists EmptyString, (String x s). do 3 (split; [done|]).
        intros a' b' Hab Ha' Hlen.
        destruct (Hcut a' b' Hab Ha') as [[-> _]|(a1 & -> & Hs & ? & Ha1)];
          [simpl in Hlen; lia | congruence].
      * intros (a & b & Hab & Ha & Hk & _).
        destruct (Hcut a b Hab Ha) as [[-> ->]|(a1 & -> & Hs & ? & Ha1)];
          [done | congruence].
Qed.

(** When the rest of the pattern cannot fail, greedy repetition takes
    the whole run. *)
Lemma star_run {R} p (f : option ascii -> string -> R) prev s :
  Re.star p (fun prev' s' => Some (f prev' s')) prev s
  = Some (f (Str.last_char prev (Str.take_while p s)) (Str.drop_while p s)).
Proof.
  revert prev. induction s as [|x s IH]; intros prev; simpl; [done|].
  destruct (p x); [|done]. by rewrite IH.
Qed.

(** The search fails when the pattern matches at no position. *)
Lemma search_from_None r prev s :
  Re.search_from r prev s = None
  <-> forall pre post, s = pre +:+ post ->
        Re.match_here r (Str.last_char prev pre) post = None.
Proof.
  revert prev. induction s as [|x s IH]; intros prev; simpl.
  - destruct (Re.match_here r prev EmptyString) as [m|] eqn:Hm.
    + split; [done|]. intros Hall.
      pose proof (Hall EmptyString EmptyString eq_refl) as Hn.
      simpl in Hn. congruence.
    + split; [|done]. intros _ pre post Hs.
      destruct pre; [|discriminate]. rewrite app_empty_l in Hs. by subst.
  - destruct (Re.match_here r prev (String x s)) as [m|] eqn:Hm.
    + split; [done|]. intros Hall.
      pose proof (Hall EmptyString (String x s) eq_refl) as Hn.
      simpl in Hn. congruence.
    + rewrite IH. split.
      * intros Hall pre post Hs. destruct pre as [|y pre].
        -- rewrite app_empty_l in Hs. by subst.
        -- rewrite app_cons in Hs. injection Hs as <- ->. by apply Hall.
      * intros Hall pre post ->. by apply (Hall (String x pre) post).
Qed.

(** The search returns the match at the leftmost position that has one. *)
Lemma search_from_Some r prev s m :
  Re.search_from r prev s = Some m
  <-> exists pre post,
        s = pre +:+ post
        /\ Re.match_here r (Str.last_char prev pre) post = Some m
        /\ forall pre' post', s = pre' +:+ post' ->
             String.length pre' < String.length pre ->
             Re.match_here r (Str.last_char prev pre') post' = None.
Proof.
  revert prev. induction s as [|x s IH]; intros prev; simpl.
  - destruct (Re.match_here r prev EmptyString) as [m0|] eqn:Hm.
    + split.
      * intros [= <-]. exists EmptyString, EmptyString. do 2 (split; [done|]).
        intros pre' post' _ Hlen. simpl in Hlen. lia.
      * intros (pre & post & Hs & Hmatch & _).
        destruct pre; [|discriminate]. rewrite app_empty_l in Hs. subst.
        simpl in Hmatch. congruence.
    + split; [done|]. intros (pre & post & Hs & Hmatch & _).
      destruct pre; [|discriminate]. rewrite app_empty_l in Hs. subst.
      simpl in Hmatch. congruence.
  - destruct (Re.match_here r prev (String x s)) as [m0|] eqn:Hm.
    + split.
      * intros [= <-]. exists EmptyString, (String x s). do 2 (split; [done|]).
        intros pre' post' _ Hlen. simpl in Hlen. lia.
      * intros (pre & post & Hs & Hmatch & Hleft).
        destruct pre as [|y pre].
        -- rewrite app_empty_l in Hs. subst. simpl in Hmatch. congruence.
        -- pose proof (Hleft EmptyString (String x s) eq_refl) as Hn.
           simpl in Hn. rewrite Hn in Hm; [done | lia].
    + rewrite IH. split.
      * intros (pre & post & -> & Hmatch & Hleft).
        exists (String x pre), post. do 2 (split; [done|]).
        intros pre' post' Hs Hlen. destruct pre' as [|y pre'].
        -- rewrite app_empty_l in Hs. by subst.
        -- rewrite !app_cons in Hs. injection Hs as <- Hs.
           apply Hleft; [done|]. simpl in Hlen. lia.
      * intros (pre & post & Hs & Hmatch & Hleft).
        destruct pre as [|y pre].
        -- rewrite app_empty_l in Hs. subst. simpl in Hmatch. congruence.
        -- rewrite app_cons in Hs. injection Hs as <- ->.
           exists pre, post. do 2 (split; [done|]).
           intros pre' post' Hs Hlen.
           apply (Hleft (String x pre') post').
           ++ by rewrite app_cons, Hs.
           ++ simpl. lia.
Qed.

End MatcherFacts.

(** ** The two patterns of [locale_used] *)

Section Patterns.
Implicit Types (s t : string) (prev : option ascii) (m : Re.Match).

Lemma rmatch_Cat {R} r1 r2 prev s g
    (k : option ascii -> string -> option string -> option R) :
  Re.rmatch (Re.Cat r1 r2) prev s g k
  = Re.rmatch r1 prev s g (fun prev' s' g' => Re.rmatch r2 prev' s' g' k).
Proof. reflexivity. Qed.

Lemma rmatch_Lit {R} l prev s g
    (k : option ascii -> string -> option string -> option R) :
  Re.rmatch (Re.Lit l) prev s g k
  = match Re.lit l prev s with
    | Some (prev', s') => k prev' s' g
    | None => None
    end.
Proof. reflexivity. Qed.

Lemma rmatch_Cls {R} p prev c s g
    (k : option ascii -> string -> option string -> option R) :
  Re.rmatch (Re.Cls p) prev (String c s) g k
  = if p c then k (Some c) s g else None.
Proof. reflexivity. Qed.

Lemma tag_run_head t rest :
  tag_run t rest ->
  exists c t1, t = String c t1 /\ tag_char c = true
               /\ Str.all tag_char t1 = true /\ Str.stops tag_char rest.
Proof.
  intros (Hne & Hall & Hstop). destruct t as [|c t1]; [done|].
  simpl in Hall. apply andb_true_iff in Hall as [? ?]. eauto 10.
Qed.

(** Group 1: the run of tag characters at the position. *)
Lemma tag_group_match prev s g m :
  Re.rmatch (Re.Group (Re.Plus tag_char)) prev s g (fun _ _ g' => Some g') = Some m
  <-> exists t rest, s = t +:+ rest /\ tag_run t rest /\ m = Some t.
Proof.
  simpl. destruct s as [|c s1].
  - split; [done|]. intros (t & rest & Hs & Hrun & _).
    apply tag_run_head in Hrun as (c & t1 & -> & _). discriminate.
  - destruct (tag_char c) eqn:Hc.
    + rewrite star_run.
      assert (Re.consumed (String c s1) (Str.drop_while tag_char s1)
              = String c (Str.take_while tag_char s1)) as ->.
      { rewrite (take_drop_while tag_char s1) at 1.
        rewrite <- app_cons. apply consumed_app. }
      split.
      * intros [= <-].
        exists (String c (Str.take_while tag_char s1)), (Str.drop_while tag_char s1).
        split; [by rewrite app_cons, <- take_drop_while|]. split; [|done].
        split; [done|]. split; [|apply drop_while_stops].
        simpl. by rewrite Hc, take_while_all.
      * intros (t & rest & Hs & Hrun & ->).
        apply tag_run_head in Hrun as (c' & t1 & -> & _ & Hall & Hstop).
        rewrite app_cons in Hs. injection Hs as <- ->.
        by destruct (span_unique tag_char t1 rest Hall Hstop) as [-> _].
    + split; [done|]. intros (t & rest & Hs & Hrun & _).
      apply tag_run_head in Hrun as (c' & t1 & -> & Hc' & _).
      rewrite app_cons in Hs. injection Hs as <- _. congruence.
Qed.

Lemma cookie_match_here prev s m :
  Re.match_here cookie_re prev s = Some m
  <-> exists t rest, s = "ae=l=" +:+ t +:+ rest /\ tag_run t rest /\ m = Some t.
Proof.
  unfold Re.match_here, cookie_re. rewrite rmatch_Cat, rmatch_Lit.
  destruct (Re.lit "ae=l=" prev s) as [[prev' s']|] eqn:Hlit.
  - apply lit_Some in Hlit as [-> _]. rewrite tag_group_match.
    split; intros (t & rest & Hs & Hrun & ->); exists t, rest.
    + by rewrite Hs.
    + split; [|done]. by apply (inj (String.app "ae=l=")) in Hs.
  - split; [done|]. intros (t & rest & -> & _).
    assert (Re.lit "ae=l=" prev ("ae=l=" +:+ t +:+ rest)
            = Some (Str.last_char prev "ae=l=", t +:+ rest)) as Hok
      by (by apply lit_Some).
    congruence.
Qed.

(** The end of the body pattern, at a position. *)
Lemma lang_attr_match prev s g m :
  Re.rmatch lang_attr_re prev s g (fun _ _ g' => Some g') = Some m
  <-> Re.word_before prev = false
      /\ exists q t rest,
           s = "lang=" +:+ String q (t +:+ rest)
           /\ quote_char q = true /\ tag_run t rest /\ m = Some t.
Proof.
  unfold lang_attr_re. rewrite rmatch_Cat.
  change (Re.rmatch Re.WordB prev s g ?k)
    with (if xorb (Re.word_before prev) (Re.word_after s) then k prev s g else None).
  cbv beta. rewrite rmatch_Cat, rmatch_Lit.
  destruct (Re.lit "lang=" prev s) as [[prev' s']|] eqn:Hlit.
  - apply lit_Some in Hlit as [-> _].
    assert (Re.word_after ("lang=" +:+ s') = true) as -> by done.
    destruct (Re.word_before prev); simpl xorb; cbv iota.
    { split; [done | intros [? _]; done]. }
    rewrite rmatch_Cat.
    destruct s' as [|q s''].
    { split; [done|]. intros (_ & q & t & rest & Hs & _).
      by apply (inj (String.app "lang=")) in Hs. }
    rewrite rmatch_Cls.
    destruct (quote_char q) eqn:Hq.
    + rewrite tag_group_match. split.
      * intros (t & rest & -> & Hrun & ->). split; [done|]. by exists q, t, rest.
      * intros (_ & q' & t & rest & Hs & _ & Hrun & ->).
        apply (inj (String.app "lang=")) in Hs. injection Hs as -> ->. eauto.
    + split; [done|]. intros (_ & q' & t & rest & Hs & Hq' & _).
      apply (inj (String.app "lang=")) in Hs. injection Hs as -> _. congruence.
  - destruct (xorb _ _); (split; [done|]); intros (_ & q & t & rest & -> & _).
    all: assert (Re.lit "lang=" prev ("lang=" +:+ String q (t +:+ rest))
                 = Some (Str.last_char prev "lang=", String q (t +:+ rest))) as Hok
           by (by apply lit_Some); congruence.
Qed.

End Patterns.

Section BodyPattern.
Implicit Types (s t html pre mid : string) (prev : option ascii) (m : Re.Match).

Lemma html_match_here_unfold prev s :
  Re.match_here html_lang_re prev s
  = match Re.lit "<html" prev s with
    | Some (prev', s') => Re.star not_gt attr_here prev' s'
    | None => None
    end.
Proof. reflexivity. Qed.

(** A marker right at the start of [s], in terms of the matcher for the
    end of the pattern. *)
Lemma marker_here s mid t :
  html_marker s EmptyString mid t
  <-> exists b, s = "<html" +:+ mid +:+ b /\ Str.all not_gt mid = true
                /\ attr_here (Str.last_char (Some "l"%char) mid) b = Some (Some t).
Proof.
  unfold html_marker, attr_here. split.
  - intros (q & rest & Hs & Hmid & Hword & Hq & Hrun).
    rewrite app_empty_l in Hs.
    exists ("lang=" +:+ String q (t +:+ rest)). do 2 (split; [done|]).
    apply lang_attr_match. split; [by rewrite last_char_app in Hword|].
    by exists q, t, rest.
  - intros (b & Hs & Hmid & Hattr).
    apply lang_attr_match in Hattr as (Hword & q & t' & rest & -> & Hq & Hrun & [= <-]).
    exists q, rest. rewrite app_empty_l. split; [done|]. split; [done|].
    split; [by rewrite last_char_app|]. done.
Qed.

Lemma marker_shift html pre mid t :
  html_marker html pre mid t
  <-> exists post, html = pre +:+ post /\ html_marker post EmptyString mid t.
Proof.
  unfold html_marker. split.
  - intros (q & rest & -> & Hrest). eexists. split; [reflexivity|].
    exists q, rest. by rewrite app_empty_l.
  - intros (post & -> & q & rest & -> & Hrest).
    exists q, rest. by rewrite app_empty_l.
Qed.

Lemma html_match_here prev s m :
  Re.match_here html_lang_re prev s = Some m
  <-> exists mid t,
        m = Some t /\ html_marker s EmptyString mid t
        /\ forall mid' t', html_marker s EmptyString mid' t' ->
             String.length mid' <= String.length mid.
Proof.
  rewrite html_match_here_unfold.
  destruct (Re.lit "<html" prev s) as [[prev' s']|] eqn:Hlit.
  - apply lit_Some in Hlit as [-> ->].
    change (Str.last_char prev "<html") with (Some "l"%char).
    rewrite star_Some. split.
    + intros (a & b & -> & Ha & Hattr & Hmax).
      assert (exists t, m = Some t) as [t ->].
      { apply lang_attr_match in Hattr as (_ & _ & t & _ & _ & _ & _ & ->). eauto. }
      exists a, t. split; [done|]. split; [apply marker_here; eauto|].
      intros mid' t' (b' & Hs & Hmid' & Hattr')%marker_here.
      apply (inj (String.app "<html")) in Hs.
      destruct (decide (String.length mid' <= String.length a)) as [|Hlong]; [done|].
      rewrite (Hmax mid' b' Hs Hmid') in Hattr'; [done | lia].
    + intros (mid & t & -> & (b & Hs & Hmid & Hattr)%marker_here & Hmax).
      apply (inj (String.app "<html")) in Hs.
      exists mid, b. do 3 (split; [done|]).
      intros a' b' Hs' Ha' Hlen.
      destruct (attr_here (Str.last_char (Some "l"%char) a') b') as [m'|] eqn:Hattr';
        [|done].
      assert (exists t', m' = Some t') as [t' ->].
      { apply lang_attr_match in Hattr' as (_ & _ & t' & _ & _ & _ & _ & ->). eauto. }
      assert (String.length a' <= String.length mid); [|lia].
      apply (Hmax a' t'). apply marker_here. exists b'.
      split; [by rewrite Hs'|]. done.
  - split; [done|]. intros (mid & t & _ & (b & -> & _)%marker_here & _).
    assert (Re.lit "<html" prev ("<html" +:+ mid +:+ b)
            = Some (Str.last_char prev "<html", mid +:+ b)) as Hok
      by (by apply lit_Some).
    congruence.
Qed.

(** Where a marker starts, the pattern matches. *)
Lemma html_match_here_exists prev s mid t :
  html_marker s EmptyString mid t ->
  exists m, Re.match_here html_lang_re prev s = Some m.
Proof.
  intros (b & -> & Hmid & Hattr)%marker_here.
  rewrite html_match_here_unfold.
  assert (Re.lit "<html" prev ("<html" +:+ mid +:+ b)
          = Some (Str.last_char prev "<html", mid +:+ b)) as ->
    by (by apply lit_Some).
  change (Str.last_char prev "<html") with (Some "l"%char).
  destruct (Re.star not_gt attr_here (Some "l"%char) (mid +:+ b)) as [m|] eqn:Hstar;
    [eauto|].
  rewrite star_None in Hstar. rewrite (Hstar mid b eq_refl Hmid) in Hattr. done.
Qed.

Lemma html_search_None html :
  Re.search html_lang_re html = None
  <-> forall pre mid t, ~ html_marker html pre mid t.
Proof.
  unfold Re.search. rewrite search_from_None. split.
  - intros Hnone pre mid t (post & -> & Hhere)%marker_shift.
    destruct (html_match_here_exists (Str.last_char None pre) _ _ _ Hhere) as [m Hm].
    rewrite (Hnone pre post eq_refl) in Hm. done.
  - intros Hnone pre post ->.
    destruct (Re.match_here html_lang_re (Str.last_char None pre) post) as [m|] eqn:Hm;
      [|done].
    apply html_match_here in Hm as (mid & t & _ & Hhere & _).
    exfalso. apply (Hnone pre mid t). apply marker_shift. eauto.
Qed.

Lemma html_search_Some html m :
  Re.search html_lang_re html = Some m
  <-> exists pre mid t, m = Some t /\ selected_html_marker html pre mid t.
Proof.
  unfold Re.search, selected_html_marker. rewrite search_from_Some. split.
  - intros (pre & post & -> & (mid & t & -> & Hhere & Hmax)%html_match_here & Hleft).
    exists pre, mid, t. split; [done|]. split; [apply marker_shift; eauto|].
    intros pre' mid' t' (post' & Hs & Hhere')%marker_shift.
    assert (String.length pre <= String.length pre') as Hle.
    { destruct (decide (String.length pre <= String.length pre')) as [|Hlt]; [done|].
      destruct (html_match_here_exists (Str.last_char None pre') _ _ _ Hhere') as [m Hm].
      rewrite (Hleft pre' post' Hs) in Hm; [done | lia]. }
    split; [done|]. intros Hlen.
    apply app_split_eq in Hs as [-> ->]; [|done]. by eapply Hmax.
  - intros (pre & mid & t & -> & (post & -> & Hhere)%marker_shift & Hsel).
    exists pre, post. split; [done|]. split.
    + apply html_match_here. exists mid, t. do 2 (split; [done|]).
      intros mid' t' Hhere'.
      apply (Hsel pre mid' t'); [|done]. apply marker_shift. eauto.
    + intros pre' post' Hs Hlen.
      destruct (Re.match_here html_lang_re (Str.last_char None pre') post')
        as [m|] eqn:Hm; [|done].
      apply html_match_here in Hm as (mid' & t' & _ & Hhere' & _).
      assert (String.length pre <= String.length pre'); [|lia].
      apply (Hsel pre' mid' t'). apply marker_shift. eauto.
Qed.

End BodyPattern.

Section CookiePattern.
Implicit Types (s t cookie pre : string) (prev : option ascii) (m : Re.Match).

Lemma cookie_marker_shift cookie pre t :
  cookie_marker cookie pre t
  <-> exists post, cookie = pre +:+ post
                   /\ Re.match_here cookie_re (Str.last_char None pre) post = Some (Some t).
Proof.
  unfold cookie_marker. split.
  - intros (rest & -> & Hrun). eexists. split; [reflexivity|].
    apply cookie_match_here. eauto.
  - intros (post & -> & (t' & rest & -> & Hrun & [= <-])%cookie_match_here).
    eauto.
Qed.

Lemma cookie_match_here_tag prev s m :
  Re.match_here cookie_re prev s = Some m ->
  exists t, m = Some t /\ forall prev', Re.match_here cookie_re prev' s = Some (Some t).
Proof.
  intros (t & rest & -> & Hrun & ->)%cookie_match_here.
  exists t. split; [done|]. intros prev'. apply cookie_match_here. eauto.
Qed.

Lemma cookie_search_None cookie :
  Re.search cookie_re cookie = None
  <-> forall pre t, ~ cookie_marker cookie pre t.
Proof.
  unfold Re.search. rewrite search_from_None. split.
  - intros Hnone pre t (post & Hs & Hm)%cookie_marker_shift.
    rewrite (Hnone pre post Hs) in Hm. done.
  - intros Hnone pre post Hs.
    destruct (Re.match_here cookie_re (Str.last_char None pre) post) as [m|] eqn:Hm;
      [|done].
    destruct (cookie_match_here_tag _ _ _ Hm) as (t & -> & _).
    exfalso. apply (Hnone pre t). apply cookie_marker_shift. eauto.
Qed.

Lemma cookie_search_Some cookie m :
  Re.search cookie_re cookie = Some m
  <-> exists pre t, m = Some t /\ first_cookie_marker cookie pre t.
Proof.
  unfold Re.search, first_cookie_marker. rewrite search_from_Some. split.
  - intros (pre & post & Hs & Hm & Hleft).
    destruct (cookie_match_here_tag _ _ _ Hm) as (t & -> & _).
    exists pre, t. split; [done|]. split; [apply cookie_marker_shift; eauto|].
    intros pre' t' (post' & Hs' & Hm')%cookie_marker_shift.
    destruct (decide (String.length pre <= String.length pre')) as [|Hlt]; [done|].
    rewrite (Hleft pre' post' Hs') in Hm'; [done | lia].
  - intros (pre & t & -> & (post & Hs & Hm)%cookie_marker_shift & Hfirst).
    exists pre, post. do 2 (split; [done|]).
    intros pre' post' Hs' Hlen.
    destruct (Re.match_here cookie_re (Str.last_char None pre') post') as [m|] eqn:Hm';
      [|done].
    destruct (cookie_match_here_tag _ _ _ Hm') as (t' & -> & _).
    assert (String.length pre <= String.length pre'); [|lia].
    apply (Hfirst pre' t'). apply cookie_marker_shift. eauto.
Qed.

Lemma or_empty_id cookie : or_empty cookie = cookie.
Proof. by destruct cookie. Qed.

End CookiePattern.

(** ** The locale extractor *)

Section Extractor.
Implicit Types (html cookie pre mid t : string).

Lemma locale_used_body html cookie pre mid t :
  selected_html_marker html pre mid t -> locale_used html cookie = Some t.
Proof.
  intros Hsel. unfold locale_used.
  assert (Re.search html_lang_re html = Some (Some t)) as ->; [|done].
  apply html_search_Some. eauto.
Qed.

Lemma locale_used_no_body html cookie :
  (forall pre mid t, ~ html_marker html pre mid t) ->
  locale_used html cookie
  = match Re.search cookie_re cookie with
    | Some m => Re.group1 m
    | None => None
    end.
Proof.
  intros Hnone%html_search_None. unfold locale_used.
  by rewrite Hnone, or_empty_id.
Qed.

Lemma html_marker_selected html :
  (exists pre mid t, html_marker html pre mid t) ->
  exists pre mid t, selected_html_marker html pre mid t.
Proof.
  intros (pre & mid & t & Hmarker).
  destruct (Re.search html_lang_re html) as [m|] eqn:Hsearch.
  - apply html_search_Some in Hsearch as (pre' & mid' & t' & _ & Hsel). eauto.
  - rewrite html_search_None in Hsearch. by destruct (Hsearch pre mid t).
Qed.

Lemma cookie_marker_first cookie :
  (exists pre t, cookie_marker cookie pre t) ->
  exists pre t, first_cookie_marker cookie pre t.
Proof.
  intros (pre & t & Hmarker).
  destruct (Re.search cookie_re cookie) as [m|] eqn:Hsearch.
  - apply cookie_search_Some in Hsearch as (pre' & t' & _ & Hfirst). eauto.
  - rewrite cookie_search_None in Hsearch. by destruct (Hsearch pre t).
Qed.

(** C1, as the code has it.  The body rule is a pattern search anchored
    at the text [<html]: a tag comes from the body exactly when the body
    has a marker after an [<html] with no [>] in between (and not
    directly after a word character); the marker taken is the one at the
    leftmost such [<html] and, there, the last one.  A body without such
    a marker gives what the empty body gives, wherever else [lang=]
    occurs in it. *)
Theorem body_rule_anchored_at_html html cookie :
  (forall pre mid t,
      selected_html_marker html pre mid t -> locale_used html cookie = Some t)
  /\ ((exists pre mid t, html_marker html pre mid t) ->
      exists pre mid t,
        selected_html_marker html pre mid t /\ locale_used html cookie = Some t)
  /\ ((forall pre mid t, ~ html_marker html pre mid t) ->
      locale_used html cookie = locale_used EmptyString cookie).
Proof.
  split; [|split].
  - intros pre mid t. apply locale_used_body.
  - intros Hex. destruct (html_marker_selected html Hex) as (pre & mid & t & Hsel).
    exists pre, mid, t. split; [done|]. by eapply locale_used_body.
  - intros Hnone. rewrite (locale_used_no_body html cookie Hnone).
    unfold locale_used. by rewrite or_empty_id.
Qed.

(** C7, as amended.  Extraction precedence, for the markers the body
    pattern accepts, that is, those after [<html].  Such a marker in the
    body decides the result whatever the cookie holds: the result is the
    tag of the selected one, the same for every cookie.  The cookie text
    counts only when the body has no such marker, and then its first
    [ae=l=] tag is the result; when neither has a marker the result is
    nothing.  A body whose selected marker has the tag [de] gives [de]
    with a cookie that holds [ae=l=fr]; the body [<html lang=de>] (tag in
    double quotes) is one.  A body with [<html] and no marker after it
    leaves the result to the cookie. *)
Theorem extraction_precedence html cookie :
  (forall pre mid t,
      selected_html_marker html pre mid t -> locale_used html cookie = Some t)
  /\ ((exists pre mid t, html_marker html pre mid t) ->
      exists pre mid t,
        html_marker html pre mid t
        /\ forall cookie', locale_used html cookie' = Some t)
  /\ ((forall pre mid t, ~ html_marker html pre mid t) ->
      forall pre t, first_cookie_marker cookie pre t ->
        locale_used html cookie = Some t)
  /\ ((forall pre mid t, ~ html_marker html pre mid t) ->
      (forall pre t, ~ cookie_marker cookie pre t) ->
      locale_used html cookie = None)
  /\ ((exists pre t, cookie_marker cookie pre t) ->
      exists pre t, first_cookie_marker cookie pre t)
  /\ ((exists pre mid, selected_html_marker html pre mid "de") ->
      (exists pre, cookie_marker cookie pre "fr") ->
      locale_used html cookie = Some "de")
  /\ locale_used body_html_de "ae=l=fr" = Some "de"
  /\ locale_used "<html>" "ae=l=fr" = Some "fr".
Proof.
  split; [|split; [|split; [|split; [|split; [|split; [|split]]]]]].
  - intros pre mid t. apply locale_used_body.
  - intros Hex. destruct (html_marker_selected html Hex) as (pre & mid & t & Hsel).
    exists pre, mid, t. split; [apply Hsel|].
    intros cookie'. by eapply locale_used_body.
  - intros Hnone pre t Hfirst. rewrite (locale_used_no_body html cookie Hnone).
    assert (Re.search cookie_re cookie = Some (Some t)) as ->; [|done].
    apply cookie_search_Some. eauto.
  - intros Hnone Hcookie%cookie_search_None.
    rewrite (locale_used_no_body html cookie Hnone). by rewrite Hcookie.
  - apply cookie_marker_first.
  - intros (pre & mid & Hsel) _. by eapply locale_used_body.
  - reflexivity.
  - reflexivity.
Qed.

(** The body pattern on small texts. *)
Example html_lang_single_quotes :
  locale_used "<html lang='pt-BR'>" EmptyString = Some "pt-BR".
Proof. reflexivity. Qed.

Example html_lang_last_in_span :
  locale_used "<html lang='a' lang='b'>" EmptyString = Some "b".
Proof. reflexivity. Qed.

Example html_lang_leftmost_html :
  locale_used "<html x lang='q'> <html lang='z'>" EmptyString = Some "q".
Proof. reflexivity. Qed.

Example html_lang_needs_boundary :
  locale_used "<html _lang='q'>" EmptyString = None
  /\ locale_used "<htmllang='q'>" EmptyString = None
  /\ locale_used "<html -lang='q'>" EmptyString = Some "q".
Proof. repeat split. Qed.

Example html_lang_not_past_gt :
  locale_used "<html><p lang='x'>" EmptyString = None.
Proof. reflexivity. Qed.

Example cookie_first_match :
  locale_used "<html>" "x; ae=l=fr-CA; ae=l=de" = Some "fr-CA".
Proof. reflexivity. Qed.

End Extractor.

(** ** The properties on the scripted collaborators *)

Lemma mock_transport_failures_only : @transport_failures_only Mock.up.
Proof.
  intros sess url hdrs t w w' e. simpl. unfold Mock.serve.
  destruct (String.eqb url _); [destruct (String.eqb _ "kam")|];
    intros; simplify_eq; done.
Qed.

(** A whole probe of the first site, in strict and in loose mode, and the
    tags the oracle was asked about: each once, [en-US] included, which
    four responses carry. *)
Example test_one_first_site :
  snd (@test_one Mock.up tt Mock.duck EmptyString false (Mock.start true))
  = Return
      [ ("oci", ("alt", "oc")); ("kab", ("alt", "kab"));
        ("kam", ("error", "Read timed out.")); ("kac", ("collision", "en-US"));
        ("kal", ("unk", "invalid locale 'zz'")); ("kar", ("unk", "no locale hint"));
        ("kat", ("collision", "kat-GE")); ("kau", ("collision", "en-US"));
        ("kaw", ("collision", "en-US")); ("kaz", ("collision", "en-US")) ]
  /\ dict_get
       (match snd (@test_one Mock.up tt Mock.duck EmptyString true (Mock.start true))
        with Return results => results | Raise _ => [] end)
       "kat" = Some ("ok", "kat-GE")
  /\ calls (fst (@test_one Mock.up tt Mock.duck EmptyString false (Mock.start true)))
     = [ "oc"; "kab"; "en-US"; "zz"; "kat-GE" ].
Proof. repeat split; vm_compute; reflexivity. Qed.

Lemma test_one_total_witness :
  @transport_failures_only Mock.up
  /\ exists results st',
       @test_one Mock.up tt Mock.duck EmptyString false (Mock.start true)
       = (st', Return results)
       /\ dict_keys results = dict_keys CODES
       /\ NoDup (dict_keys results)
       /\ forall code, code ∈ dict_keys CODES ->
            exists st1 st2 entry,
              @probe_code Mock.up tt Mock.duck EmptyString false code st1
              = (st2, Return entry)
              /\ dict_get results code = Some entry
              /\ forall w e,
                   @Session_get Mock.up tt Mock.duck
                     (request_headers code EmptyString) 15 (world st1)
                   = (w, Raise e) ->
                   entry = ("error", exc_str e).
Proof.
  split; [exact mock_transport_failures_only|].
  exact (@test_one_total Mock.up tt Mock.duck EmptyString false (Mock.start true)
           mock_transport_failures_only).
Defined.

Lemma alternate_then_fallback_witness :
  @_validated_lang Mock.up "oc" (Mock.start true)
  = (Mock.validated "oc", Return (Some "oc"))
  /\ @classify Mock.up "oci" (Some "oc") true (Mock.start true)
     = (Mock.validated "oc", Return ("alt", "oc")).
Proof.
  assert (@_validated_lang Mock.up "oc" (Mock.start true)
          = (Mock.validated "oc", Return (Some "oc"))) as Hvalid
    by (vm_compute; reflexivity).
  split; [exact Hvalid|].
  exact (proj1 (@alternate_then_fallback Mock.up "oc" "oc" (Mock.start true)
                  (Mock.validated "oc") true Hvalid) eq_refl).
Defined.

Lemma alt_fallback_only_for_interest_witness :
  dict_get (K := string) (V := string * string)
    [ ("oci", ("alt", "oc")); ("kab", ("alt", "kab"));
      ("kam", ("error", "Read timed out.")); ("kac", ("collision", "en-US"));
      ("kal", ("unk", "invalid locale 'zz'")); ("kar", ("unk", "no locale hint"));
      ("kat", ("collision", "kat-GE")); ("kau", ("collision", "en-US"));
      ("kaw", ("collision", "en-US")); ("kaz", ("collision", "en-US")) ]
    "kac" = Some ("collision", "en-US")
  /\ ("kac" ∈ dict_keys CODES
      /\ (("collision" = "alt" \/ "collision" = "fallback") -> "kac" = "oci" \/ "kac" = "kab")
      /\ ("kac" <> "oci" -> "kac" <> "kab" ->
          "collision" = "ok" \/ "collision" = "collision"
          \/ "collision" = "unk" \/ "collision" = "error")).
Proof.
  split; [reflexivity|].
  apply (@alt_fallback_only_for_interest Mock.up tt Mock.duck EmptyString false
           (Mock.start true)
           (fst (@test_one Mock.up tt Mock.duck EmptyString false (Mock.start true)))
           [ ("oci", ("alt", "oc")); ("kab", ("alt", "kab"));
             ("kam", ("error", "Read timed out.")); ("kac", ("collision", "en-US"));
             ("kal", ("unk", "invalid locale 'zz'")); ("kar", ("unk", "no locale hint"));
             ("kat", ("collision", "kat-GE")); ("kau", ("collision", "en-US"));
             ("kaw", ("collision", "en-US")); ("kaz", ("collision", "en-US")) ]
           "kac" "collision" "en-US").
  - vm_compute. reflexivity.
  - reflexivity.
Defined.

Lemma normal_verdict_witness :
  @classify Mock.up "kat" (Some "kat-GE") true (Mock.start true)
  = (Mock.validated "kat-GE", Return ("ok", "kat-GE"))
  /\ @classify Mock.up "kat" (Some "kat-GE") false (Mock.start true)
     = (Mock.validated "kat-GE", Return ("collision", "kat-GE")).
Proof.
  refine (proj2 (proj2 (@normal_verdict Mock.up "kat" "kat-GE" "kat-GE"
                          (Mock.start true) (Mock.validated "kat-GE") _ _ _ _ _))
            eq_refl eq_refl).
  - vm_compute. reflexivity.
  - discriminate.
  - intros [? _]. discriminate.
  - intros [? _]. discriminate.
  - intros [[?|?] _]; discriminate.
Defined.

Lemma kab_exact_match_is_alt_witness :
  @classify Mock.up "kab" (Some "kab") false (Mock.start true)
  = (Mock.validated "kab", Return ("alt", "kab")).
Proof.
  refine (proj1 (@kab_exact_match_is_alt Mock.up "kab" (Mock.start true)
                   (Mock.validated "kab") false _)).
  vm_compute. reflexivity.
Defined.

Lemma report_mode_complete_witness :
  exists report collisions st',
    @report_mode Mock.up reverse true (Mock.start true)
    = (st', Return (report, collisions))
    /\ length report = 8
    /\ collisions
       = [ ("Nextcloud", "mobile", "oci"); ("Nextcloud", "mobile", "kab");
           ("Nextcloud", "desktop", "oci"); ("Nextcloud", "desktop", "kab") ].
Proof.
  destruct (@report_mode_complete Mock.up reverse true (Mock.start true)
              (reverse_Permutation _)) as [Hcompletes Hreport].
  destruct (Hcompletes mock_transport_failures_only)
    as ([report collisions] & st' & Hrun).
  destruct (Hreport report collisions st' Hrun) as (Hlen & _).
  exists report, collisions, st'. split; [exact Hrun|]. split; [exact Hlen|].
  assert (snd (@report_mode Mock.up reverse true (Mock.start true))
          = Return (report, collisions)) as Hsnd by (by rewrite Hrun).
  vm_compute in Hsnd. by injection Hsnd as <- <-.
Defined.

Lemma batch_failure_propagates_witness :
  @report_mode Mock.down id false (Mock.start false)
  = (fst (@run_pool Mock.down combos false (Mock.start false)),
     Raise (mkExc OtherException "client misconfigured")).
Proof.
  pose (futs := match snd (@run_pool Mock.down combos false (Mock.start false)) with
                | Return futs => futs
                | Raise _ => []
                end).
  refine (proj1 (@batch_failure_propagates Mock.down id false (Mock.start false)
                   (fst (@run_pool Mock.down combos false (Mock.start false)))
                   (take 2 futs) (drop 3 futs)
                   (mkExc OtherException "client misconfigured") _ _)).
  - vm_compute. reflexivity.
  - intros fut Hin. vm_compute in Hin.
    apply elem_of_cons in Hin as [->|Hin]; [eauto|].
    apply elem_of_cons in Hin as [->|Hin]; [eauto|].
    by apply elem_of_nil in Hin.
Defined.

(** C1, counterexample.  This body has an [html] element without a
    language and a [div] with [lang=fr] in double quotes; the plain text
    search of the claim would return [fr], [locale_used] returns nothing. *)
Lemma body_rule_plain_search_counterexample :
  lang_marker_anywhere body_div_fr "fr"
  /\ locale_used body_div_fr EmptyString = None
  /\ locale_used body_div_fr EmptyString <> Some "fr".
Proof.
  split; [|split; [reflexivity | discriminate]].
  exists "<html><body><div ", "034"%char, ">bonjour</div></body></html>".
  split; [reflexivity|]. split; [reflexivity|]. split; [discriminate | reflexivity].
Qed.

(** C7, counterexample.  The first body holds the marker [lang=de] (tag
    in double quotes) on a [p] element, the cookie holds [ae=l=fr]: the
    claim gives [de], [locale_used] returns [fr], since the body pattern
    finds no marker after [<html] and the cookie decides.  The second
    body holds [lang=de] after [<html], followed by [lang=en] in the same
    tag: the result is [en]. *)
Lemma extraction_precedence_counterexample :
  lang_marker_anywhere body_p_de "de"
  /\ cookie_marker "ae=l=fr" EmptyString "fr"
  /\ locale_used body_p_de "ae=l=fr" = Some "fr"
  /\ locale_used body_p_de "ae=l=fr" <> Some "de"
  /\ lang_marker_anywhere body_html_de_en "de"
  /\ locale_used body_html_de_en "ae=l=fr" = Some "en"
  /\ locale_used body_html_de_en "ae=l=fr" <> Some "de".
Proof.
  split; [|split; [|split; [|split; [|split; [|split]]]]].
  - exists "<html><body><p ", "034"%char, ">hallo</p></body></html>".
    split; [reflexivity|]. split; [reflexivity|]. split; [discriminate | reflexivity].
  - exists EmptyString. split; [reflexivity|].
    split; [discriminate|]. split; [reflexivity | exact I].
  - reflexivity.
  - discriminate.
  - exists "<html ", "034"%char,
      (" lang=" +:+ dq +:+ "en" +:+ dq +:+ ">").
    split; [reflexivity|]. split; [reflexivity|]. split; [discriminate | reflexivity].
  - reflexivity.
  - discriminate.
Qed.

(** C2, counterexample.  The client of the second site fails entirely.
    The probes of the two targets on the first site complete, yet the
    batch ends with the exception and returns no report: their entries
    are not reported and the failure is not attributed to a target. *)
Lemma batch_failure_attribution_counterexample :
  (exists job st',
      @_job Mock.down "1" "1" false (Mock.start false) = (st', Return job))
  /\ (exists job st',
        @_job Mock.down "1" "2" false (Mock.start false) = (st', Return job))
  /\ snd (@_job Mock.down "2" "1" false (Mock.start false))
     = Raise (mkExc OtherException "client misconfigured")
  /\ snd (@report_mode Mock.down id false (Mock.start false))
     = Raise (mkExc OtherException "client misconfigured")
  /\ ~ exists report collisions,
         snd (@report_mode Mock.down id false (Mock.start false))
         = Return (report, collisions).
Proof.
  split; [|split; [|split; [|split]]].
  - eexists _, _. vm_compute. reflexivity.
  - eexists _, _. vm_compute. reflexivity.
  - vm_compute. reflexivity.
  - vm_compute. reflexivity.
  - intros (report & collisions & Hrun). vm_compute in Hrun. discriminate.
Qed.

(* ================================================================== *)
(** * Further properties of the code *)

(** ** What [locale_used] returns *)

Lemma tag_run_shaped t rest : tag_run t rest -> tag_shaped t.
Proof. intros (Hne & Hall & _). by split. Qed.

Lemma locale_used_shaped html cookie t :
  locale_used html cookie = Some t -> tag_shaped t.
Proof.
  unfold locale_used. rewrite or_empty_id.
  destruct (Re.search html_lang_re html) as [m|] eqn:Hbody.
  - apply html_search_Some in Hbody as (pre & mid & t' & -> & (q & rest & _ & _ & _ & _ & Hrun) & _).
    intros [= <-]. by eapply tag_run_shaped.
  - destruct (Re.search cookie_re cookie) as [m|] eqn:Hcookie; [|done].
    apply cookie_search_Some in Hcookie as (pre & t' & -> & (rest & _ & Hrun) & _).
    intros [= <-]. by eapply tag_run_shaped.
Qed.

(** X1. A tag that [locale_used] returns is never empty and holds only
    letters and hyphens; it is the tag of the selected marker of the
    body, or, when the body has no marker at all, of the first marker of
    the cookie text. *)
Theorem locale_used_tag_origin html cookie t
    (Hused : locale_used html cookie = Some t) :
  tag_shaped t
  /\ ((exists pre mid, selected_html_marker html pre mid t)
      \/ ((forall pre mid t', ~ html_marker html pre mid t')
          /\ exists pre, first_cookie_marker cookie pre t)).
Proof.
  split; [by eapply locale_used_shaped|].
  unfold locale_used in Hused. rewrite or_empty_id in Hused.
  destruct (Re.search html_lang_re html) as [m|] eqn:Hbody.
  - apply html_search_Some in Hbody as (pre & mid & t' & -> & Hsel).
    injection Hused as <-. left. eauto.
  - right. split; [by apply html_search_None|].
    destruct (Re.search cookie_re cookie) as [m|] eqn:Hcookie; [|done].
    apply cookie_search_Some in Hcookie as (pre & t' & -> & Hfirst).
    injection Hused as <-. eauto.
Qed.

Lemma locale_used_tag_origin_witness :
  locale_used "<p lang='x'>" "id=7; ae=l=pt-BR; Path=/" = Some "pt-BR"
  /\ tag_shaped "pt-BR".
Proof.
  assert (locale_used "<p lang='x'>" "id=7; ae=l=pt-BR; Path=/" = Some "pt-BR")
    as Hused by reflexivity.
  split; [exact Hused|].
  exact (proj1 (locale_used_tag_origin _ _ _ Hused)).
Defined.

(** ** The cache of the validator over the life of the process *)

Section CacheFacts.
Context `{Collaborators}.

Lemma validated_lang_coherent tag (st st' : St) o :
  cache_coherent st -> _validated_lang tag st = (st', o) -> cache_coherent st'.
Proof.
  intros [Hnd Hdom]. unfold _validated_lang.
  destruct (lru st !! tag) as [r|] eqn:Hc; [by intros [= <- <-]|].
  destruct (validated_lang_body_returns tag st) as (r & st1 & -> & Hcalls & Hlru).
  intros [= <- <-]. split; simpl; rewrite Hcalls.
  - apply NoDup_app. split; [done|]. split; [|apply NoDup_singleton].
    intros t Ht ->%list_elem_of_singleton.
    apply Hdom in Ht as [? ?]. congruence.
  - intros t. rewrite elem_of_app, list_elem_of_singleton, Hlru, lookup_insert_is_Some.
    rewrite Hdom. split.
    + intros [Hs| ->]; [|by left].
      destruct (decide (tag = t)); [by left | by right].
    + intros [<-|[_ Hs]]; [by right | by left].
Qed.

Lemma process_step_grows (st st' : St) :
  process_step st st' ->
  (forall tag r, lru st !! tag = Some r -> lru st' !! tag = Some r)
  /\ exists new, calls st' = calls st ++ new.
Proof.
  intros [tag st0 st1 o Hrun|st0 w].
  - split; [intros t r; by eapply validated_lang_keeps|].
    unfold _validated_lang in Hrun.
    destruct (lru st0 !! tag) as [r|]; [simplify_eq; exists []; by rewrite app_nil_r|].
    destruct (validated_lang_body_returns tag st0) as (r & st2 & Hb & Hcalls & _).
    rewrite Hb in Hrun. simplify_eq. simpl. eauto.
  - split; [done|]. exists []. simpl. by rewrite app_nil_r.
Qed.

Lemma steps_coherent (st st' : St) :
  rtc process_step st st' -> cache_coherent st -> cache_coherent st'.
Proof.
  induction 1 as [st|st st1 st2 Hstep _ IH]; [done|].
  intros Hc. apply IH.
  destruct Hstep as [tag st0 st3 o Hrun|st0 w]; [|done].
  by eapply validated_lang_coherent.
Qed.

Lemma steps_grow (st st' : St) :
  rtc process_step st st' ->
  (forall tag r, lru st !! tag = Some r -> lru st' !! tag = Some r)
  /\ exists new, calls st' = calls st ++ new.
Proof.
  induction 1 as [st|st st1 st2 Hstep _ [Hkeep2 [new2 Hnew2]]].
  - split; [done|]. exists []. by rewrite app_nil_r.
  - destruct (process_step_grows _ _ Hstep) as [Hkeep1 [new1 Hnew1]].
    split; [eauto|].
    exists (new1 ++ new2). by rewrite Hnew2, Hnew1, app_assoc.
Qed.

(** X2. Over the life of the process the log of oracle entries never
    repeats a tag and lists exactly the cached tags; the cache only
    grows (no entry is changed or dropped) and the log is only added
    to. *)
Theorem cache_stays_coherent (st st' : St)
    (Hcoherent : cache_coherent st)
    (Hsteps : rtc process_step st st') :
  cache_coherent st'
  /\ (forall tag r, lru st !! tag = Some r -> lru st' !! tag = Some r)
  /\ exists new, calls st' = calls st ++ new.
Proof.
  split; [by eapply steps_coherent|].
  destruct (steps_grow _ _ Hsteps) as [Hkeep Hnew]. by split.
Qed.

(** *** The scanner moves by process steps *)

Lemma stepwise_ret {A} (a : A) : stepwise (ret a).
Proof. intros st st' o [= <- <-]. done. Qed.

Lemma stepwise_raise {A} e : stepwise (raise (A := A) e).
Proof. intros st st' o [= <- <-]. done. Qed.

Lemma stepwise_bind {A B} (m : M A) (k : A -> M B) :
  stepwise m -> (forall a, stepwise (k a)) -> stepwise (bind m k).
Proof.
  intros Hm Hk st st' o. unfold bind.
  destruct (m st) as [st1 [a|e]] eqn:Hrun.
  - intros Hrest. etrans; [by eapply Hm | by eapply Hk].
  - intros [= <- <-]. by eapply Hm.
Qed.

Lemma stepwise_try_except {A} (m : M A) catches (h : Exc -> M A) :
  stepwise m -> (forall e, stepwise (h e)) -> stepwise (try_except m catches h).
Proof.
  intros Hm Hh st st' o. unfold try_except.
  destruct (m st) as [st1 [a|e]] eqn:Hrun.
  - intros [= <- <-]. by eapply Hm.
  - destruct (catches e).
    + intros Hrest. etrans; [by eapply Hm | by eapply Hh].
    + intros [= <- <-]. by eapply Hm.
Qed.

Lemma stepwise_call {A} (f : World -> World * outcome A) : stepwise (call f).
Proof.
  intros st st' o. unfold call. destruct (f (world st)) as [w o'].
  intros [= <- <-]. apply rtc_once. constructor.
Qed.

Lemma stepwise_getitem {K V} `{EqDecision K} (d : list (K * V)) k shown :
  stepwise (getitem d k shown).
Proof.
  unfold getitem. destruct (dict_get d k); [apply stepwise_ret | apply stepwise_raise].
Qed.

Lemma stepwise_validated tag : stepwise (_validated_lang tag).
Proof. intros st st' o Hrun. apply rtc_once. by econstructor. Qed.

Lemma stepwise_classify code got loose : stepwise (classify code got loose).
Proof.
  unfold classify. destruct got as [tag|]; [|apply stepwise_ret].
  destruct (negb (Py.truthy tag)); [apply stepwise_ret|].
  apply stepwise_bind; [apply stepwise_validated|].
  intros [lang|]; apply stepwise_ret.
Qed.

Lemma stepwise_probe_code sess url ua loose code :
  stepwise (probe_code sess url ua loose code).
Proof.
  unfold probe_code. apply stepwise_bind.
  - apply stepwise_try_except.
    + apply stepwise_bind; [apply stepwise_call | intros; apply stepwise_ret].
    + intros; apply stepwise_ret.
  - intros [entry|r]; [apply stepwise_ret | apply stepwise_classify].
Qed.

Lemma stepwise_test_one sess url ua loose : stepwise (test_one sess url ua loose).
Proof.
  unfold test_one. generalize (@nil (string * (string * string))).
  induction CODES as [|[code name] items IH]; intros results; simpl.
  - apply stepwise_ret.
  - apply stepwise_bind; [apply stepwise_probe_code | intros; apply IH].
Qed.

Lemma stepwise_job sk dk loose : stepwise (_job sk dk loose).
Proof.
  unfold _job.
  apply stepwise_bind; [apply stepwise_getitem | intros site].
  apply stepwise_bind; [apply stepwise_getitem | intros dev].
  apply stepwise_bind; [apply stepwise_call | intros sess].
  apply stepwise_bind; [apply stepwise_test_one | intros; apply stepwise_ret].
Qed.

Lemma stepwise_run_pool order loose : stepwise (run_pool order loose).
Proof.
  induction order as [|[sk dk] order IH]; simpl; [apply stepwise_ret|].
  apply stepwise_bind.
  - intros st st' o. destruct (_job sk dk loose st) as [st1 o1] eqn:Hjob.
    intros [= <- <-]. by eapply stepwise_job.
  - intros fut. apply stepwise_bind; [apply IH | intros; apply stepwise_ret].
Qed.

Lemma stepwise_merge_codes site_n dev_n res codes (report : Report) :
  stepwise (merge_codes site_n dev_n res codes report).
Proof.
  revert report. induction codes as [|code codes IH]; intros report; simpl.
  - apply stepwise_ret.
  - apply stepwise_bind; [apply stepwise_getitem | intros; apply IH].
Qed.

Lemma stepwise_merge_completed futs (report : Report) :
  stepwise (merge_completed futs report).
Proof.
  revert report. induction futs as [|fut futs IH]; intros report.
  - apply stepwise_ret.
  - change (merge_completed (fut :: futs) report)
      with (bind (result fut)
              (fun job => let '(sk, dk, site_n, dev_n, res) := job in
                 bind (merge_codes site_n dev_n res ["oci"; "kab"] report)
                      (fun report' => merge_completed futs report'))).
    apply stepwise_bind.
    + destruct fut; [apply stepwise_ret | apply stepwise_raise].
    + intros [[[[sk dk] site_n] dev_n] res].
      apply stepwise_bind; [apply stepwise_merge_codes | intros; apply IH].
Qed.

Lemma stepwise_report_mode as_completed loose :
  stepwise (report_mode as_completed loose).
Proof.
  unfold report_mode.
  apply stepwise_bind; [apply stepwise_run_pool | intros futs].
  apply stepwise_bind; [apply stepwise_merge_completed | intros; apply stepwise_ret].
Qed.

Lemma process_step_fresh (st st' : St) :
  process_step st st' ->
  exists new,
    calls st' = calls st ++ new
    /\ forall tag, tag ∈ new -> lru st !! tag = None.
Proof.
  intros [tag st0 st1 o Hrun|st0 w].
  - unfold _validated_lang in Hrun.
    destruct (lru st0 !! tag) as [r|] eqn:Hcache.
    + simplify_eq. exists []. rewrite app_nil_r. split; [done|].
      intros t Ht. by apply elem_of_nil in Ht.
    + destruct (validated_lang_body_returns tag st0) as (r & st2 & Hb & Hcalls & _).
      rewrite Hb in Hrun. simplify_eq. simpl. exists [tag]. split; [done|].
      by intros t ->%list_elem_of_singleton.
  - exists []. simpl. rewrite app_nil_r. split; [done|].
    intros t Ht. by apply elem_of_nil in Ht.
Qed.

(** The oracle is entered for tags that were not cached at the start. *)
Lemma steps_fresh (st st' : St) :
  rtc process_step st st' ->
  exists new,
    calls st' = calls st ++ new
    /\ forall tag, tag ∈ new -> lru st !! tag = None.
Proof.
  induction 1 as [st|st st1 st2 Hstep _ (new2 & Hnew2 & Hfresh2)].
  - exists []. rewrite app_nil_r. split; [done|].
    intros t Ht. by apply elem_of_nil in Ht.
  - destruct (process_step_fresh _ _ Hstep) as (new1 & Hnew1 & Hfresh1).
    destruct (process_step_grows _ _ Hstep) as [Hkeep _].
    exists (new1 ++ new2). split; [by rewrite Hnew2, Hnew1, app_assoc|].
    intros t [Ht|Ht]%elem_of_app; [by apply Hfresh1|].
    destruct (lru st !! t) as [r|] eqn:Hcache; [|done].
    apply Hkeep in Hcache. rewrite (Hfresh2 t Ht) in Hcache. done.
Qed.

End CacheFacts.

Lemma fresh_coherent : @cache_coherent Mock.up (Mock.start true).
Proof.
  split; simpl; [constructor|]. intros tag. rewrite lookup_empty. split.
  - intros Hin. by apply elem_of_nil in Hin.
  - intros [? ?]. done.
Qed.

Lemma cache_stays_coherent_witness :
  @cache_coherent Mock.up (Mock.validated "oc")
  /\ (forall tag r, lru (Mock.start true) !! tag = Some r ->
        lru (Mock.validated "oc") !! tag = Some r)
  /\ exists new, calls (Mock.validated "oc") = calls (Mock.start true) ++ new.
Proof.
  apply (@cache_stays_coherent Mock.up (Mock.start true) (Mock.validated "oc")
           fresh_coherent).
  apply rtc_once.
  apply (@step_validate Mock.up "oc" _ _ (Return (Some ("oc" : @Language Mock.up)))).
  vm_compute. reflexivity.
Defined.

(** ** What a probe asks of the oracle *)

Section OracleUse.
Context `{Collaborators}.

Lemma validated_lang_calls tag (st st' : St) o :
  _validated_lang tag st = (st', o) ->
  calls st' = calls st \/ calls st' = calls st ++ [tag].
Proof.
  unfold _validated_lang.
  destruct (lru st !! tag) as [r|]; [intros [= <- <-]; by left|].
  destruct (validated_lang_body_returns tag st) as (r & st1 & -> & Hcalls & _).
  intros [= <- <-]. by right.
Qed.

Lemma probe_code_calls sess url ua loose code (st st' : St) o :
  probe_code sess url ua loose code st = (st', o) ->
  exists new,
    calls st' = calls st ++ new /\ length new <= 1 /\ Forall tag_shaped new.
Proof.
  assert (forall st0 : St, exists new,
            calls st0 = calls st0 ++ new /\ length new <= 1 /\ Forall tag_shaped new)
    as Hnone.
  { intros st0. exists []. rewrite app_nil_r. simpl. auto. }
  unfold probe_code, bind, try_except, call, ret.
  destruct (Session_get sess url (request_headers code ua) 15 (world st))
    as [w [r|e]].
  - unfold classify.
    destruct (locale_used _ _) as [tag|] eqn:Hused;
      [|intros [= <- <-]; apply (Hnone (mkSt w (lru st) (calls st)))].
    destruct (negb (Py.truthy tag));
      [intros [= <- <-]; apply (Hnone (mkSt w (lru st) (calls st)))|].
    unfold bind.
    destruct (_validated_lang tag (mkSt w (lru st) (calls st)))
      as [st1 o1] eqn:Hvalid.
    assert (calls st' = calls st1 -> exists new,
              calls st' = calls st ++ new /\ length new <= 1 /\ Forall tag_shaped new)
      as Hdone.
    { intros ->. apply validated_lang_calls in Hvalid as [->| ->]; simpl.
      - exists []. rewrite app_nil_r. simpl. auto.
      - exists [tag]. split; [done|]. split; [simpl; lia|].
        constructor; [by eapply locale_used_shaped | constructor]. }
    destruct o1 as [[lang|]|e]; intros [= <- <-]; by apply Hdone.
  - destruct (is_RequestException e); intros [= <- <-];
      apply (Hnone (mkSt w (lru st) (calls st))).
Qed.

Lemma test_one_loop_calls sess url ua loose items :
  forall results (st st' : St) o,
    test_one_loop sess url ua loose items results st = (st', o) ->
    exists new,
      calls st' = calls st ++ new
      /\ length new <= length items /\ Forall tag_shaped new.
Proof.
  induction items as [|[code name] items IH]; intros results st st' o; simpl.
  - intros [= <- <-]. exists []. rewrite app_nil_r. simpl. auto.
  - unfold bind at 1.
    destruct (probe_code sess url ua loose code st) as [st1 [entry|e]] eqn:Hp;
      apply probe_code_calls in Hp as (new1 & Hnew1 & Hlen1 & Hshape1).
    + intros (new2 & Hnew2 & Hlen2 & Hshape2)%IH.
      exists (new1 ++ new2). rewrite Hnew2, Hnew1, app_assoc. split; [done|].
      split; [rewrite List.length_app; lia | by apply Forall_app].
    + intros [= <- <-]. exists new1. split; [done|]. split; [lia | done].
Qed.

(** X4. A probe, returning or not, enters the oracle at most ten times
    (at most once per code), and only with tags taken from the
    responses: non-empty runs of letters and hyphens, never an empty or
    arbitrary string. *)
Theorem probe_asks_oracle_about_tags sess url ua loose (st st' : St)
    (o : outcome (list (string * (string * string))))
    (Hrun : test_one sess url ua loose st = (st', o)) :
  exists new,
    calls st' = calls st ++ new
    /\ length new <= 10
    /\ Forall tag_shaped new.
Proof.
  apply test_one_loop_calls in Hrun as (new & Hnew & Hlen & Hshape).
  exists new. split; [done|]. split; [|done]. exact Hlen.
Qed.

Lemma job_calls sk dk loose (st st' : St) o :
  _job sk dk loose st = (st', o) ->
  exists new,
    calls st' = calls st ++ new /\ length new <= 10 /\ Forall tag_shaped new.
Proof.
  assert (exists new : list string,
            calls st = calls st ++ new /\ length new <= 10 /\ Forall tag_shaped new)
    as Hnone.
  { exists []. rewrite app_nil_r. simpl. split; [done|]. split; [lia | constructor]. }
  unfold _job, getitem, bind at 1.
  destruct (dict_get SITES sk) as [site|]; [|by intros [= <- <-]].
  unfold ret at 1, bind at 1.
  destruct (dict_get DEVICES dk) as [dev|]; [|by intros [= <- <-]].
  unfold ret at 1, bind at 1, call at 1.
  destruct (requests_Session (world st)) as [w sess].
  unfold bind at 1.
  match goal with |- context [test_one ?a ?b ?c ?d ?e] =>
    destruct (test_one a b c d e) as [st1 [res|e']] eqn:Hrun end;
    apply test_one_loop_calls in Hrun as (new & Hnew & Hlen & Hshape);
    intros [= <- <-]; exists new; (split; [exact Hnew|]); (split; [exact Hlen | done]).
Qed.

Lemma run_pool_calls order loose :
  forall (st st' : St) o,
    run_pool order loose st = (st', o) ->
    exists new,
      calls st' = calls st ++ new
      /\ length new <= 10 * length order /\ Forall tag_shaped new.
Proof.
  induction order as [|[sk dk] order IH]; intros st st' o.
  - intros [= <- <-]. exists []. rewrite app_nil_r. simpl.
    split; [done|]. split; [lia | constructor].
  - simpl run_pool. unfold bind at 1.
    destruct (_job sk dk loose st) as [st1 o1] eqn:Hjob.
    apply job_calls in Hjob as (new1 & Hnew1 & Hlen1 & Hshape1).
    unfold bind at 1.
    destruct (run_pool order loose st1) as [st2 [futs|e]] eqn:Hpool;
      apply IH in Hpool as (new2 & Hnew2 & Hlen2 & Hshape2);
      intros [= <- <-]; exists (new1 ++ new2);
      (split; [by rewrite Hnew2, Hnew1, app_assoc|]);
      (split; [rewrite List.length_app; simpl length; lia | by apply Forall_app]).
Qed.

Lemma merge_codes_state site_n dev_n res codes :
  forall (report : Report) (st st' : St) o,
    merge_codes site_n dev_n res codes report st = (st', o) -> st' = st.
Proof.
  induction codes as [|code codes IH]; intros report st st' o; simpl.
  - by intros [= <- <-].
  - unfold getitem, bind at 1.
    destruct (dict_get res code) as [entry|]; [|by intros [= <- <-]].
    unfold ret at 1. apply IH.
Qed.

Lemma merge_completed_state futs :
  forall (report : Report) (st st' : St) o,
    merge_completed futs report st = (st', o) -> st' = st.
Proof.
  induction futs as [|fut futs IH]; intros report st st' o.
  - by intros [= <- <-].
  - destruct fut as [[[[[sk dk] site_n] dev_n] res]|e]; [|by intros [= <- <-]].
    rewrite merge_completed_cons.
    destruct (merge_codes site_n dev_n res ["oci"; "kab"] report st)
      as [st1 [report'|e]] eqn:Hcodes;
      apply merge_codes_state in Hcodes as ->; [apply IH | by intros [= <- <-]].
Qed.

(** X3. What a batch run asks of the oracle.  A whole batch run,
    returning or not, enters the oracle at most forty times (at most ten
    times for each of the four targets), only with non-empty runs of
    letters and hyphens, and never for a tag that was cached before the
    run; the cache entries present before the run stay as they were.
    Every part is a bound on the single calls of the validator.  Nothing
    is said on how often one tag is validated: jobs that run at the same
    time may each miss the cache for the same tag. *)
Theorem batch_validation_bounded
    (as_completed : list (string * string) -> list (string * string))
    (loose : bool) (st st' : St) (o : outcome (Report * list ReportKey))
    (Horder : as_completed combos ≡ₚ combos)
    (Hrun : report_mode as_completed loose st = (st', o)) :
  (forall tag r, lru st !! tag = Some r -> lru st' !! tag = Some r)
  /\ exists new,
       calls st' = calls st ++ new
       /\ length new <= 40
       /\ Forall tag_shaped new
       /\ forall tag, tag ∈ new -> lru st !! tag = None.
Proof.
  pose proof (stepwise_report_mode as_completed loose st st' o Hrun) as Hsteps.
  destruct (steps_grow _ _ Hsteps) as [Hkeep _].
  destruct (steps_fresh _ _ Hsteps) as (new & Hnew & Hfresh).
  split; [exact Hkeep|]. exists new. split; [exact Hnew|].
  unfold report_mode, bind at 1 in Hrun.
  destruct (run_pool (as_completed combos) loose st) as [st1 [futs|e]] eqn:Hpool;
    apply run_pool_calls in Hpool as (new1 & Hnew1 & Hlen1 & Hshape1).
  - unfold bind at 1 in Hrun.
    destruct (merge_completed futs [] st1) as [st2 [report|e]] eqn:Hmerge;
      apply merge_completed_state in Hmerge as ->; unfold ret in Hrun;
      injection Hrun as <- <-;
      rewrite Hnew1 in Hnew; apply app_inv_head in Hnew as <-;
      rewrite (Permutation_length Horder) in Hlen1; simpl in Hlen1;
      (split; [lia|]); (split; [done|]); exact Hfresh.
  - injection Hrun as <- <-. rewrite Hnew1 in Hnew. apply app_inv_head in Hnew as <-.
    rewrite (Permutation_length Horder) in Hlen1. simpl in Hlen1.
    split; [lia|]. split; [done|]. exact Hfresh.
Qed.

End OracleUse.

Lemma batch_validation_bounded_witness :
  (forall tag r,
      lru (Mock.start true) !! tag = Some r ->
      lru (fst (@report_mode Mock.up reverse true (Mock.start true))) !! tag = Some r)
  /\ exists new,
       calls (fst (@report_mode Mock.up reverse true (Mock.start true)))
       = calls (Mock.start true) ++ new
       /\ length new <= 40
       /\ Forall tag_shaped new
       /\ forall tag, tag ∈ new -> lru (Mock.start true) !! tag = None.
Proof.
  exact (@batch_validation_bounded Mock.up reverse true (Mock.start true) _ _
           (reverse_Permutation _) (surjective_pairing _)).
Defined.

Lemma probe_asks_oracle_about_tags_witness :
  exists new,
    calls (fst (@test_one Mock.up tt Mock.duck EmptyString false (Mock.start true)))
    = calls (Mock.start true) ++ new
    /\ length new <= 10
    /\ Forall tag_shaped new.
Proof.
  exact (@probe_asks_oracle_about_tags Mock.up tt Mock.duck EmptyString false
           (Mock.start true) _ _ (surjective_pairing _)).
Defined.

(** ** Strict and loose mode *)

Section Modes.
Context `{Collaborators}.

Lemma verdict_modes code tag :
  relaxed (code, verdict code tag false) (code, verdict code tag true).
Proof.
  unfold relaxed, verdict. cbn [fst snd].
  destruct (String.eqb code "oci" && String.eqb tag "oc"); [cbn [fst snd]; auto|].
  destruct (String.eqb code "kab" && Py.startswith tag "kab"); [cbn [fst snd]; auto|].
  destruct (Py.in_tuple code ["oci"; "kab"]
            && existsb (fun f => Py.startswith tag f) FALLBACKS);
    [cbn [fst snd]; auto|].
  cbn [fst snd]. split; [done|]. split; [done|].
  destruct (String.eqb_spec tag code) as [->|Hne].
  - rewrite startswith_refl. by left.
  - destruct (Py.startswith tag code) eqn:Hpre; [right | left]; done.
Qed.

Lemma classify_modes code got (st : St) :
  exists st' strict loose,
    classify code got false st = (st', Return strict)
    /\ classify code got true st = (st', Return loose)
    /\ relaxed (code, strict) (code, loose).
Proof.
  assert (forall entry : string * string, relaxed (code, entry) (code, entry))
    as Hsame by (intros entry; unfold relaxed; simpl; auto).
  unfold classify. destruct got as [tag|]; [|unfold ret; eauto 10].
  destruct (negb (Py.truthy tag)); [unfold ret; eauto 10|].
  unfold bind.
  destruct (validated_lang_returns tag st) as (r & st' & -> & _).
  destruct r as [lang|]; unfold ret; [|eauto 10].
  eexists _, _, _. do 2 (split; [reflexivity|]). apply verdict_modes.
Qed.

Lemma probe_code_modes sess url ua code (st : St) :
  exists st',
    (exists strict loose,
        probe_code sess url ua false code st = (st', Return strict)
        /\ probe_code sess url ua true code st = (st', Return loose)
        /\ relaxed (code, strict) (code, loose))
    \/ (exists e,
          probe_code sess url ua false code st = (st', Raise e)
          /\ probe_code sess url ua true code st = (st', Raise e)).
Proof.
  unfold probe_code, bind, try_except, call, ret.
  destruct (Session_get sess url (request_headers code ua) 15 (world st))
    as [w [r|e]].
  - destruct (classify_modes code
                (locale_used (text r) (default EmptyString (headers r "Set-Cookie")))
                (mkSt w (lru st) (calls st)))
      as (st' & strict & loose & Hs & Hl & Hrel).
    exists st'. left. eauto.
  - destruct (is_RequestException e).
    + eexists. left. eexists _, _. do 2 (split; [reflexivity|]).
      unfold relaxed. simpl. auto.
    + eexists. right. eauto.
Qed.

Lemma dict_set_relaxed (d1 d2 : list (string * (string * string))) code strict loose :
  Forall2 relaxed d1 d2 ->
  relaxed (code, strict) (code, loose) ->
  Forall2 relaxed (dict_set d1 code strict) (dict_set d2 code loose).
Proof.
  intros Hall Hrel. induction Hall as [|[k1 v1] [k2 v2] d1 d2 Hhead Htail IH]; simpl.
  - by constructor.
  - assert (k1 = k2) as <- by apply Hhead.
    destruct (decide (k1 = code)); by constructor.
Qed.

Lemma test_one_loop_modes sess url ua items :
  forall strict0 loose0 (st st' : St) strict,
    Forall2 relaxed strict0 loose0 ->
    test_one_loop sess url ua false items strict0 st = (st', Return strict) ->
    exists loose,
      test_one_loop sess url ua true items loose0 st = (st', Return loose)
      /\ Forall2 relaxed strict loose.
Proof.
  induction items as [|[code name] items IH];
    intros strict0 loose0 st st' strict Hrel; simpl.
  - intros [= <- <-]. unfold ret. eauto.
  - intros Hrun. unfold bind at 1 in Hrun.
    destruct (probe_code_modes sess url ua code st)
      as [st1 [(s & l & Hs & Hl & Hsl)|(e & He & _)]].
    + rewrite Hs in Hrun.
      destruct (IH _ _ _ _ _ (dict_set_relaxed _ _ _ _ _ Hrel Hsl) Hrun)
        as (loose & Hloose & Hrel').
      exists loose. split; [|done]. unfold bind at 1. by rewrite Hl.
    + by rewrite He in Hrun.
Qed.

(** X5. Loose mode only relaxes strict mode.  From the same state and
    with the same responses, a loose probe ends in the same state as the
    strict one and returns, code by code, the same evidence and the same
    label, except where the strict label is [collision] and the tag is a
    proper extension of the code: there the loose label is [ok]. *)
Theorem loose_only_relaxes_collisions sess url ua (st st' : St)
    (strict : list (string * (string * string)))
    (Hrun : test_one sess url ua false st = (st', Return strict)) :
  exists loose,
    test_one sess url ua true st = (st', Return loose)
    /\ Forall2 relaxed strict loose.
Proof.
  unfold test_one in *.
  eapply test_one_loop_modes; [|exact Hrun]. constructor.
Qed.

(** ** Codes without alternates or fall-backs *)

Lemma startswith_shorter (s p q : string) :
  Py.startswith s (p +:+ q) = true -> Py.startswith s p = true.
Proof.
  rewrite !startswith_true. intros [rest ->].
  exists (q +:+ rest). by rewrite str_app_assoc.
Qed.

(** X6. The eight codes other than [oci] and [kab] have neither
    alternates nor fall-backs, and all begin with [ka]: for them a valid
    tag that does not begin with [ka], an English one included, is a
    [collision] in both modes. *)
Theorem other_codes_collide (code tag : string) (lang : Language)
    (st st' : St) (loose : bool)
    (Hcode : code ∈ dict_keys CODES)
    (Hoci : code <> "oci") (Hkab : code <> "kab")
    (Hvalid : _validated_lang tag st = (st', Return (Some lang)))
    (Hnonempty : tag <> EmptyString)
    (Hka : Py.startswith tag "ka" = false) :
  classify code (Some tag) loose st = (st', Return ("collision", tag)).
Proof.
  rewrite (classify_valid code tag loose lang st st' Hvalid) by (by destruct tag).
  assert (exists c, code = "ka" +:+ c
                    /\ String.eqb code "oci" = false
                    /\ String.eqb code "kab" = false) as (c & -> & Eoci & Ekab).
  { unfold dict_keys, CODES in Hcode. simpl in Hcode.
    repeat (apply elem_of_cons in Hcode as [->|Hcode]; [try done; by eexists|]).
    by apply elem_of_nil in Hcode. }
  assert (Py.startswith tag ("ka" +:+ c) = false) as Hpre.
  { destruct (Py.startswith tag ("ka" +:+ c)) eqn:E; [|done].
    apply startswith_shorter in E. congruence. }
  assert (String.eqb tag ("ka" +:+ c) = false) as Heq.
  { apply String.eqb_neq. intros ->. by rewrite startswith_refl in Hpre. }
  unfold verdict, Py.in_tuple, existsb.
  rewrite Eoci, Ekab, Hpre, Heq. simpl. by destruct loose.
Qed.

(** ** Responses without a locale *)

(** X7. An answered request whose body has no marker and whose
    [Set-Cookie] text (empty when the header is absent) has none either
    is recorded as [(unk, no locale hint)], for every code and mode, and
    the validator is not consulted: cache and oracle log are untouched. *)
Theorem probe_without_hint sess url ua loose code (st : St) w r
    (Hget : Session_get sess url (request_headers code ua) 15 (world st)
            = (w, Return r))
    (Hbody : forall pre mid t, ~ html_marker (text r) pre mid t)
    (Hcookie : forall pre t,
        ~ cookie_marker (default EmptyString (headers r "Set-Cookie")) pre t) :
  probe_code sess url ua loose code st
  = (mkSt w (lru st) (calls st), Return ("unk", "no locale hint")).
Proof.
  rewrite (probe_code_response _ _ _ _ _ _ _ _ Hget).
  rewrite (locale_used_no_body _ _ Hbody).
  apply cookie_search_None in Hcookie. by rewrite Hcookie.
Qed.

End Modes.

Lemma loose_only_relaxes_collisions_witness :
  exists loose,
    @test_one Mock.up tt Mock.duck EmptyString true (Mock.start true)
    = (fst (@test_one Mock.up tt Mock.duck EmptyString false (Mock.start true)),
       Return loose)
    /\ dict_get loose "kat" = Some ("ok", "kat-GE").
Proof.
  destruct (@loose_only_relaxes_collisions Mock.up tt Mock.duck EmptyString
              (Mock.start true)
              (fst (@test_one Mock.up tt Mock.duck EmptyString false (Mock.start true)))
              [ ("oci", ("alt", "oc")); ("kab", ("alt", "kab"));
                ("kam", ("error", "Read timed out.")); ("kac", ("collision", "en-US"));
                ("kal", ("unk", "invalid locale 'zz'")); ("kar", ("unk", "no locale hint"));
                ("kat", ("collision", "kat-GE")); ("kau", ("collision", "en-US"));
                ("kaw", ("collision", "en-US")); ("kaz", ("collision", "en-US")) ])
    as (loose & Hrun & _).
  { vm_compute. reflexivity. }
  exists loose. split; [exact Hrun|].
  assert (snd (@test_one Mock.up tt Mock.duck EmptyString true (Mock.start true))
          = Return loose) as Hsnd by (by rewrite Hrun).
  vm_compute in Hsnd. injection Hsnd as <-. reflexivity.
Defined.

Lemma other_codes_collide_witness :
  @classify Mock.up "kac" (Some "en-US") false (Mock.start true)
  = (Mock.validated "en-US", Return ("collision", "en-US")).
Proof.
  refine (@other_codes_collide Mock.up "kac" "en-US" "en-US" (Mock.start true)
            (Mock.validated "en-US") false _ _ _ _ _ _).
  - apply (bool_decide_unpack _). by vm_compute.
  - discriminate.
  - discriminate.
  - vm_compute. reflexivity.
  - discriminate.
  - reflexivity.
Defined.

Lemma probe_without_hint_witness :
  @probe_code Mock.up tt Mock.duck EmptyString true "kar" (Mock.start true)
  = (Mock.start true, Return ("unk", "no locale hint")).
Proof.
  refine (@probe_without_hint Mock.up tt Mock.duck EmptyString true "kar"
            (Mock.start true) tt
            (mkResponse "<p lang='fr'>" (fun _ => None)) _ _ _).
  - reflexivity.
  - apply html_search_None. reflexivity.
  - apply cookie_search_None. reflexivity.
Defined.

(** ** A probe and a batch without network *)

Section NetworkDown.
Context `{Collaborators}.
Implicit Types (results : list (string * (string * string))).

Lemma dict_set_labels {K} `{EqDecision K} (P : string -> Prop)
    (d : list (K * (string * string))) k entry :
  Forall (fun kv => P kv.2.1) d -> P entry.1 ->
  Forall (fun kv => P kv.2.1) (dict_set d k entry).
Proof.
  intros Hall Hentry. induction Hall as [|[k' v'] d Hhead Htail IH]; simpl.
  - by repeat constructor.
  - destruct (decide (k' = k)); by constructor.
Qed.

Lemma dict_get_labels {K} `{EqDecision K} (P : string -> Prop)
    (d : list (K * (string * string))) k label evidence :
  Forall (fun kv => P kv.2.1) d -> dict_get d k = Some (label, evidence) -> P label.
Proof.
  intros Hall Hget%dict_get_elem_of.
  rewrite Forall_forall in Hall. by apply (Hall _ Hget).
Qed.

Lemma test_one_loop_down sess url ua loose items :
  network_down ->
  forall results (st : St),
    Forall (fun kv => kv.2.1 = "error") results ->
    exists out st',
      test_one_loop sess url ua loose items results st = (st', Return out)
      /\ Forall (fun kv => kv.2.1 = "error") out
      /\ lru st' = lru st /\ calls st' = calls st.
Proof.
  intros Hdown. induction items as [|[code name] items IH]; intros results st Hall; simpl.
  - unfold ret. eauto 10.
  - destruct (Hdown sess url (request_headers code ua) 15%Z (world st))
      as (w & e & Hget & Hclass).
    unfold bind at 1.
    rewrite (probe_code_transport_failure _ _ _ _ _ _ _ _ Hget Hclass).
    destruct (IH (dict_set results code ("error", exc_str e))
                (mkSt w (lru st) (calls st)))
      as (out & st' & -> & Hout & Hlru & Hcalls).
    { by apply (dict_set_labels (fun label => label = "error")). }
    eauto 10.
Qed.

(** X8. Without network (every request refused with a transport
    failure) a probe still returns the full mapping: all ten codes, each
    labelled [error]; the validator is never consulted, so cache and
    oracle log are as before. *)
Theorem probe_with_network_down sess url ua loose (st : St)
    (Hdown : network_down) :
  exists results st',
    test_one sess url ua loose st = (st', Return results)
    /\ dict_keys results = dict_keys CODES
    /\ (forall code label evidence,
          dict_get results code = Some (label, evidence) -> label = "error")
    /\ lru st' = lru st
    /\ calls st' = calls st.
Proof.
  destruct (test_one_loop_down sess url ua loose CODES Hdown [] st)
    as (results & st' & Hrun & Hall & Hlru & Hcalls); [constructor|].
  exists results, st'. split; [done|]. split; [by eapply test_one_keys|].
  split; [|done]. intros code label evidence.
  by apply (dict_get_labels (fun label => label = "error")).
Qed.

Lemma job_down sk dk loose (st st' : St) site_n dev_n res :
  network_down ->
  _job sk dk loose st = (st', Return (sk, dk, site_n, dev_n, res)) ->
  Forall (fun kv => kv.2.1 = "error") res.
Proof.
  intros Hdown. unfold _job, getitem, bind at 1.
  destruct (dict_get SITES sk) as [site|]; [|discriminate].
  unfold ret at 1, bind at 1.
  destruct (dict_get DEVICES dk) as [dev|]; [|discriminate].
  unfold ret at 1, bind at 1, call at 1.
  destruct (requests_Session (world st)) as [w sess].
  unfold bind at 1.
  match goal with |- context [test_one ?a ?b ?c ?d ?e] =>
    destruct (test_one_loop_down a b c d CODES Hdown [] e)
      as (out & st1 & Hrun & Hall & _); [constructor|];
    unfold test_one; rewrite Hrun end.
  unfold ret. intros Heq. by simplify_eq.
Qed.

Lemma merge_codes_labels (P : string -> Prop) site_n dev_n res codes :
  Forall (fun kv => P kv.2.1) res ->
  forall (report report' : Report) (st st' : St),
    Forall (fun kv => P kv.2.1) report ->
    merge_codes site_n dev_n res codes report st = (st', Return report') ->
    Forall (fun kv => P kv.2.1) report'.
Proof.
  intros Hres. induction codes as [|code codes IH];
    intros report report' st st' Hall; simpl.
  - by intros [= <- <-].
  - unfold getitem, bind at 1.
    destruct (dict_get res code) as [[label evidence]|] eqn:Hget; [|discriminate].
    unfold ret at 1. apply IH. apply (dict_set_labels P); [done|].
    simpl. by eapply (dict_get_labels P res).
Qed.

Lemma merge_completed_labels (P : string -> Prop) (futs : list Future) :
  Forall (fun fut => forall sk dk site_n dev_n res,
            fut = Return (sk, dk, site_n, dev_n, res) ->
            Forall (fun kv => P kv.2.1) res) futs ->
  forall (report report' : Report) (st st' : St),
    Forall (fun kv => P kv.2.1) report ->
    merge_completed futs report st = (st', Return report') ->
    Forall (fun kv => P kv.2.1) report'.
Proof.
  induction 1 as [|fut futs Hfut _ IH]; intros report report' st st' Hall.
  - by intros [= <- <-].
  - destruct fut as [[[[[sk dk] site_n] dev_n] res]|e]; [|by simpl].
    rewrite merge_completed_cons.
    destruct (merge_codes site_n dev_n res ["oci"; "kab"] report st)
      as [st1 [report1|e]] eqn:Hmerge; [|done].
    apply IH. eapply merge_codes_labels; [|done|done]. by eapply Hfut.
Qed.

(** X9. Without network a batch run still completes, whatever the
    completion order: the report has its eight entries, every one
    labelled [error], and the collision list is empty. *)
Theorem batch_with_network_down
    (as_completed : list (string * string) -> list (string * string))
    (loose : bool) (st : St)
    (Hdown : network_down)
    (Horder : as_completed combos ≡ₚ combos) :
  exists report st',
    report_mode as_completed loose st = (st', Return (report, []))
    /\ length report = 8
    /\ forall key label evidence,
         (key, (label, evidence)) ∈ report -> label = "error".
Proof.
  assert (transport_failures_only) as Htransport.
  { intros sess url hdrs t w w' e Hget.
    destruct (Hdown sess url hdrs t w) as (w1 & e1 & Hget1 & Hclass). congruence. }
  destruct (run_pool_returns (as_completed combos) loose st)
    as (futs & st1 & Hpool & Hjobs).
  assert (Forall fut_ok futs) as Hok.
  { pose proof (pool_futures_returned loose _ _ Htransport Hjobs) as Hret.
    pose proof (pool_future_shape _ _ _ Hjobs) as Hshape.
    rewrite Forall_forall in Hret. apply Forall_forall. intros fut Hin.
    destruct (Hret (fun combo Hc => proj1 (elem_of_Permutation_proper _ _ _ Horder) Hc)
                fut Hin) as [job ->].
    apply list_elem_of_lookup in Hin as [i Hi].
    destruct (Forall2_lookup_r _ _ _ _ _ Hshape Hi) as (combo & _ & Hfut).
    by destruct (Hfut job eq_refl). }
  destruct (merge_pool_report as_completed loose futs st1 Horder Hjobs Hok)
    as (report & Hmerge & Hlen & _).
  assert (Forall (fun kv : ReportKey * (string * string) => kv.2.1 = "error") report)
    as Hlabels.
  { eapply (merge_completed_labels (fun label => label = "error") futs);
      [|constructor|exact Hmerge].
    apply Forall_forall. intros fut [i Hi]%list_elem_of_lookup sk dk site_n dev_n res ->.
    destruct (Forall2_lookup_r _ _ _ _ _ Hjobs Hi) as ([sk' dk'] & _ & sa & sb & Hjob).
    simpl in Hjob.
    destruct (job_shape _ _ _ _ _ _ Hjob) as (? & ? & ? & _ & _ & Hshape & _).
    simplify_eq. by eapply job_down. }
  assert (collisions_of report = []) as Hnone.
  { apply elem_of_nil_inv. intros key [evidence Hin]%collisions_of_spec.
    rewrite Forall_forall in Hlabels. by specialize (Hlabels _ Hin). }
  exists report, st1. split; [|split; [exact Hlen|]].
  - unfold report_mode, bind. by rewrite Hpool, Hmerge, Hnone.
  - intros key label evidence Hin. rewrite Forall_forall in Hlabels.
    apply (Hlabels _ Hin).
Qed.

End NetworkDown.

Lemma offline_network_down : @network_down Offline.collaborators.
Proof. intros sess url hdrs t w. simpl. eauto. Qed.

Lemma probe_with_network_down_witness :
  @network_down Offline.collaborators
  /\ snd (@test_one Offline.collaborators tt Mock.duck EmptyString true Offline.start)
     = Return (map (fun code => (code, ("error", "Connection refused")))
                   (dict_keys CODES)).
Proof.
  split; [exact offline_network_down|].
  destruct (@probe_with_network_down Offline.collaborators tt Mock.duck EmptyString
              true Offline.start offline_network_down)
    as (results & st' & Hrun & _).
  rewrite Hrun. simpl. f_equal.
  assert (snd (@test_one Offline.collaborators tt Mock.duck EmptyString true
                 Offline.start) = Return results) as Hsnd by (by rewrite Hrun).
  vm_compute in Hsnd. by injection Hsnd as <-.
Defined.

Lemma batch_with_network_down_witness :
  exists report st',
    @report_mode Offline.collaborators reverse false Offline.start
    = (st', Return (report, []))
    /\ length report = 8
    /\ forall key label evidence,
         (key, (label, evidence)) ∈ report -> label = "error".
Proof.
  exact (@batch_with_network_down Offline.collaborators reverse false Offline.start
           offline_network_down (reverse_Permutation _)).
Defined.

(** ** Where exceptions come from *)

Section Exceptions.
Context `{Collaborators}.

Lemma probe_code_raise sess url ua loose code (st st' : St) e :
  probe_code sess url ua loose code st = (st', Raise e) ->
  exists w,
    Session_get sess url (request_headers code ua) 15 (world st) = (w, Raise e)
    /\ exc_class e <> RequestException.
Proof.
  unfold probe_code, bind, try_except, call, ret.
  destruct (Session_get sess url (request_headers code ua) 15 (world st))
    as [w [r|e']] eqn:Hget.
  - intros Hc.
    destruct (classify_returns code
                (locale_used (text r) (default EmptyString (headers r "Set-Cookie")))
                loose (mkSt w (lru st) (calls st))) as (entry & st1 & Hret).
    congruence.
  - unfold is_RequestException.
    destruct (exc_class e') eqn:Hclass; intros [= <- <-];
      exists w; split; congruence.
Qed.

Lemma test_one_loop_raise sess url ua loose items :
  forall results (st st' : St) e,
    test_one_loop sess url ua loose items results st = (st', Raise e) ->
    exists code st0 w,
      code ∈ dict_keys items
      /\ Session_get sess url (request_headers code ua) 15 (world st0) = (w, Raise e)
      /\ exc_class e <> RequestException.
Proof.
  induction items as [|[code name] items IH]; intros results st st' e; simpl.
  - discriminate.
  - unfold bind at 1.
    destruct (probe_code sess url ua loose code st) as [st1 [entry|e']] eqn:Hp.
    + intros (c & st0 & w & Hin & Hget)%IH. exists c, st0, w.
      split; [by right | done].
    + intros [= <- <-]. apply probe_code_raise in Hp as (w & Hget & Hclass).
      exists code, st, w. split; [by left | done].
Qed.

(** X10. A probe raises nothing of its own.  An exception that leaves
    [test_one] was raised by the HTTP client on the request for one of
    the codes and is not a [RequestException]; failures of the oracle
    and transport failures never leave it. *)
Theorem probe_raises_only_client_failures sess url ua loose (st st' : St) e
    (Hrun : test_one sess url ua loose st = (st', Raise e)) :
  exists code st0 w,
    code ∈ dict_keys CODES
    /\ Session_get sess url (request_headers code ua) 15 (world st0) = (w, Raise e)
    /\ exc_class e <> RequestException.
Proof. by eapply test_one_loop_raise. Qed.

Lemma job_raise sk dk loose (st st' : St) e site dev :
  dict_get SITES sk = Some site -> dict_get DEVICES dk = Some dev ->
  _job sk dk loose st = (st', Raise e) ->
  exists sess st0, test_one sess site.2 dev.2 loose st0 = (st', Raise e).
Proof.
  intros Hsite Hdev. unfold _job, getitem, bind at 1. rewrite Hsite.
  unfold ret at 1, bind at 1. rewrite Hdev.
  unfold ret at 1, bind at 1, call at 1.
  destruct (requests_Session (world st)) as [w sess].
  unfold bind at 1.
  match goal with |- context [test_one ?a ?b ?c ?d ?e] =>
    destruct (test_one a b c d e) as [st1 [res|e']] eqn:Hrun end.
  - discriminate.
  - intros [= <- <-]. eauto.
Qed.

Lemma merge_completed_raise (futs : list Future) :
  Forall (fun fut => forall job, fut = Return job -> fut_ok fut) futs ->
  forall (report : Report) (st st' : St) e,
    merge_completed futs report st = (st', Raise e) ->
    Raise e ∈ futs.
Proof.
  induction 1 as [|fut futs Hfut _ IH]; intros report st st' e; [discriminate|].
  destruct fut as [job|e'].
  - destruct (Hfut job eq_refl) as (sk & dk & site_n & dev_n & res & [= ->] & Hkeys).
    rewrite merge_completed_cons.
    destruct (merge_codes_interest site_n dev_n res report st Hkeys)
      as (oci & kab & _ & _ & ->).
    intros Hin%IH. by right.
  - simpl. intros [= <- <-]. by left.
Qed.

(** X11. A batch run raises nothing of its own either: no [KeyError]
    from the site, device or result tables, nothing from the oracle.  An
    exception that leaves [report_mode] was raised by the HTTP client on
    a request of one of the probes and is not a [RequestException]. *)
Theorem batch_raises_only_client_failures
    (as_completed : list (string * string) -> list (string * string))
    (loose : bool) (st st' : St) e
    (Horder : as_completed combos ≡ₚ combos)
    (Hrun : report_mode as_completed loose st = (st', Raise e)) :
  exists sess url hdrs w0 w,
    Session_get sess url hdrs 15 w0 = (w, Raise e)
    /\ exc_class e <> RequestException.
Proof.
  destruct (run_pool_returns (as_completed combos) loose st)
    as (futs & st1 & Hpool & Hjobs).
  unfold report_mode, bind at 1 in Hrun. rewrite Hpool in Hrun.
  unfold bind at 1 in Hrun.
  destruct (merge_completed futs [] st1) as [st2 [report|e']] eqn:Hmerge;
    [discriminate|].
  injection Hrun as <- <-.
  apply merge_completed_raise in Hmerge as [i Hi]%list_elem_of_lookup.
  - destruct (Forall2_lookup_r _ _ _ _ _ Hjobs Hi) as ([sk dk] & Hcombo & sa & sb & Hjob).
    destruct (combos_lookup sk dk) as (site & dev & Hsite & Hdev).
    { rewrite <- Horder. by eapply list_elem_of_lookup_2. }
    destruct (job_raise _ _ _ _ _ _ _ _ Hsite Hdev Hjob) as (sess & st0 & Hprobe).
    apply test_one_loop_raise in Hprobe as (code & st3 & w & _ & Hget & Hclass).
    eauto 10.
  - apply Forall_forall. intros fut [i Hi]%list_elem_of_lookup job ->.
    destruct (Forall2_lookup_r _ _ _ _ _ (pool_future_shape _ _ _ Hjobs) Hi)
      as (combo & _ & Hfut).
    by destruct (Hfut job eq_refl).
Qed.

(** X12. A job for a site key or a device key that is not in the tables
    raises [KeyError] at once: no session is opened, no request is sent,
    the state is as before.  The site key is looked up first.  The keys
    of both tables are [1] and [2]. *)
Theorem job_unknown_key sk dk loose (st : St) :
  (dict_get SITES sk = None ->
   exists e, _job sk dk loose st = (st, Raise e) /\ exc_class e = KeyError)
  /\ (dict_get DEVICES dk = None ->
      exists e, _job sk dk loose st = (st, Raise e) /\ exc_class e = KeyError)
  /\ (dict_get SITES sk = None <-> sk <> "1" /\ sk <> "2")
  /\ (dict_get DEVICES dk = None <-> dk <> "1" /\ dk <> "2").
Proof.
  assert (forall (table : list (string * (string * string))) k v1 v2,
            table = [("1", v1); ("2", v2)] ->
            dict_get table k = None <-> k <> "1" /\ k <> "2") as Hkeys.
  { intros table k v1 v2 ->. simpl.
    destruct (decide ("1" = k)) as [<-|]; [split; [done | intros [? _]; done]|].
    destruct (decide ("2" = k)) as [<-|]; [split; [done | intros [_ ?]; done]|].
    split; [intros _; split; congruence | done]. }
  split; [|split; [|split]].
  - intros Hsite. unfold _job, getitem, bind at 1. rewrite Hsite.
    unfold raise. eauto.
  - intros Hdev. unfold _job, getitem, bind at 1.
    destruct (dict_get SITES sk) as [site|]; [|unfold raise; eauto].
    unfold ret at 1, bind at 1. rewrite Hdev. unfold raise. eauto.
  - by eapply Hkeys.
  - by eapply Hkeys.
Qed.

(** X13. The report lists the targets in the order in which their jobs
    completed, each with [oci] before [kab], and the collision list
    follows the order of the report. *)
Theorem report_follows_completion_order
    (as_completed : list (string * string) -> list (string * string))
    (loose : bool) (st st' : St) (report : Report) (collisions : list ReportKey)
    (Horder : as_completed combos ≡ₚ combos)
    (Hrun : report_mode as_completed loose st = (st', Return (report, collisions))) :
  dict_keys report = flat_map combo_keys (as_completed combos)
  /\ collisions `sublist_of` dict_keys report.
Proof.
  destruct (run_pool_returns (as_completed combos) loose st)
    as (futs & st1 & Hpool & Hjobs).
  unfold report_mode, bind at 1 in Hrun. rewrite Hpool in Hrun.
  unfold bind at 1 in Hrun.
  destruct (merge_completed futs [] st1) as [st2 [report0|e]] eqn:Hmerge0;
    [|discriminate].
  unfold ret in Hrun. simplify_eq.
  assert (Forall fut_ok futs) as Hok.
  { eapply merge_completed_all_returned; [|exact Hmerge0].
    apply Forall_forall. intros fut [i Hi]%list_elem_of_lookup job ->.
    destruct (Forall2_lookup_r _ _ _ _ _ (pool_future_shape _ _ _ Hjobs) Hi)
      as (combo & _ & Hfut).
    by destruct (Hfut job eq_refl). }
  pose proof (pool_keys _ _ _ Hjobs Hok) as Hkeys.
  destruct (merge_completed_ok futs Hok [] st1) as (merged & Hmerge & Hrk & _).
  { simpl. rewrite Hkeys, (Permutation_flat_map combo_keys Horder).
    apply (bool_decide_unpack _). by vm_compute. }
  rewrite Hmerge in Hmerge0. simplify_eq. split.
  - by rewrite Hrk, Hkeys.
  - unfold collisions_of, dict_keys. apply fmap_sublist, sublist_filter.
Qed.

End Exceptions.

Lemma probe_raises_only_client_failures_witness :
  exists code st0 w,
    code ∈ dict_keys CODES
    /\ @Session_get Mock.down tt "https://demo2.nextcloud.com/index.php/login "
         (request_headers code EmptyString) 15 (@world Mock.down st0)
       = (w, Raise (mkExc OtherException "client misconfigured"))
    /\ exc_class (mkExc OtherException "client misconfigured") <> RequestException.
Proof.
  refine (@probe_raises_only_client_failures Mock.down tt
            "https://demo2.nextcloud.com/index.php/login " EmptyString false
            (Mock.start false) (Mock.start false)
            (mkExc OtherException "client misconfigured") _).
  vm_compute. reflexivity.
Defined.

Lemma batch_raises_only_client_failures_witness :
  exists sess url hdrs w0 w,
    @Session_get Mock.down sess url hdrs 15 w0
    = (w, Raise (mkExc OtherException "client misconfigured"))
    /\ exc_class (mkExc OtherException "client misconfigured") <> RequestException.
Proof.
  refine (@batch_raises_only_client_failures Mock.down reverse false
            (Mock.start false)
            (fst (@report_mode Mock.down reverse false (Mock.start false)))
            (mkExc OtherException "client misconfigured")
            (reverse_Permutation _) _).
  vm_compute. reflexivity.
Defined.

Lemma report_follows_completion_order_witness :
  exists report collisions,
    snd (@report_mode Mock.up reverse true (Mock.start true))
    = Return (report, collisions)
    /\ dict_keys report
       = [ ("Nextcloud", "mobile", "oci"); ("Nextcloud", "mobile", "kab");
           ("Nextcloud", "desktop", "oci"); ("Nextcloud", "desktop", "kab");
           ("DuckDuckGo", "mobile", "oci"); ("DuckDuckGo", "mobile", "kab");
           ("DuckDuckGo", "desktop", "oci"); ("DuckDuckGo", "desktop", "kab") ]
    /\ collisions `sublist_of` dict_keys report.
Proof.
  destruct (snd (@report_mode Mock.up reverse true (Mock.start true)))
    as [[report collisions]|e] eqn:Hsnd; [|vm_compute in Hsnd; discriminate].
  exists report, collisions. split; [reflexivity|].
  assert (@report_mode Mock.up reverse true (Mock.start true)
          = (fst (@report_mode Mock.up reverse true (Mock.start true)),
             Return (report, collisions))) as Hrun.
  { rewrite <- Hsnd. apply surjective_pairing. }
  destruct (@report_follows_completion_order Mock.up reverse true (Mock.start true)
              _ report collisions (reverse_Permutation _) Hrun) as [Hkeys Hsub].
  split; [|exact Hsub]. rewrite Hkeys. reflexivity.
Defined.

(** ** The requests a probe sends *)

Section Requests.
Context (C : Collaborators).
Local Abbreviation R := (recording C).

Lemma same_run_ret {A} (a : A) : same_run (@ret R A a) (@ret C A a).
Proof. intros st. reflexivity. Qed.

Lemma same_run_bind {A B} (mR : @M R A) (mC : @M C A)
    (kR : A -> @M R B) (kC : A -> @M C B) :
  same_run mR mC -> (forall a, same_run (kR a) (kC a)) ->
  same_run (bind mR kR) (bind mC kC).
Proof.
  intros Hm Hk st. unfold bind. rewrite (Hm st).
  destruct (mR st) as [st1 [a|e]]; simpl; [apply Hk | done].
Qed.

Lemma same_run_try_except {A} (mR : @M R A) (mC : @M C A) catches
    (hR : Exc -> @M R A) (hC : Exc -> @M C A) :
  same_run mR mC -> (forall e, same_run (hR e) (hC e)) ->
  same_run (try_except mR catches hR) (try_except mC catches hC).
Proof.
  intros Hm Hh st. unfold try_except. rewrite (Hm st).
  destruct (mR st) as [st1 [a|e]]; simpl; [done|].
  destruct (catches e); [apply Hh | done].
Qed.

Lemma same_run_validated tag :
  same_run (@_validated_lang R tag) (@_validated_lang C tag).
Proof.
  intros [[w log] cache entered]. unfold _validated_lang, erase. simpl.
  match goal with |- context [@lookup ?K ?V ?M ?L tag cache] =>
    destruct (@lookup K V M L tag cache) as [r|] end; [done|].
  unfold validated_lang_body, bind, try_except, log_call, call, ret. simpl.
  destruct (@Language_get C tag w) as [w1 [lang|e]]; simpl; [|done].
  destruct (@Language_is_valid C lang w1) as [w2 [valid|e]]; done.
Qed.

Lemma same_run_classify code got loose :
  same_run (@classify R code got loose) (@classify C code got loose).
Proof.
  unfold classify. destruct got as [tag|]; [|apply same_run_ret].
  destruct (negb (Py.truthy tag)); [apply same_run_ret|].
  apply same_run_bind; [apply same_run_validated|].
  intros [lang|]; apply same_run_ret.
Qed.

Lemma same_run_probe_code sess url ua loose code :
  same_run (@probe_code R sess url ua loose code)
           (@probe_code C sess url ua loose code).
Proof.
  unfold probe_code. apply same_run_bind.
  - apply same_run_try_except; [|intros; apply same_run_ret].
    apply same_run_bind; [|intros; apply same_run_ret].
    intros st. unfold call. simpl.
    by destruct (@Session_get C sess url (request_headers code ua) 15 (world st).1).
  - intros [entry|r]; [apply same_run_ret | apply same_run_classify].
Qed.

Lemma same_run_test_one sess url ua loose :
  same_run (@test_one R sess url ua loose) (@test_one C sess url ua loose).
Proof.
  unfold test_one. generalize (@nil (string * (string * string))).
  induction CODES as [|[code name] items IH]; intros results; simpl.
  - apply same_run_ret.
  - apply same_run_bind; [apply same_run_probe_code | intros; apply IH].
Qed.

Lemma validated_requests tag (st st' : @St R) o :
  @_validated_lang R tag st = (st', o) -> requests_of st' = requests_of st.
Proof.
  unfold _validated_lang, requests_of.
  destruct (lru st !! tag) as [r|]; [by intros [= <- <-]|].
  unfold validated_lang_body, bind, try_except, log_call, call, ret. simpl.
  destruct (@Language_get C tag (world st).1) as [w [lang|e]]; simpl.
  - destruct (@Language_is_valid C lang w) as [w' [valid|e]]; simpl;
      by intros [= <- <-].
  - by intros [= <- <-].
Qed.

(** One iteration hands exactly one request to the client, whatever
    becomes of it. *)
Lemma probe_code_requests sess url ua loose code (st st' : @St R) o :
  @probe_code R sess url ua loose code st = (st', o) ->
  requests_of st' = requests_of st ++ [request_for url ua code].
Proof.
  unfold probe_code, bind, try_except, call, ret. simpl.
  destruct (@Session_get C sess url (request_headers code ua) 15 (world st).1)
    as [w [r|e]]; simpl.
  - unfold classify.
    destruct (locale_used _ _) as [tag|]; [|by intros [= <- <-]].
    destruct (negb (Py.truthy tag)); [by intros [= <- <-]|].
    unfold bind.
    match goal with |- context [_validated_lang tag ?s] =>
      destruct (_validated_lang tag s) as [st1 o1] eqn:Hvalid end.
    apply validated_requests in Hvalid.
    destruct o1 as [[lang|]|e]; intros [= <- <-]; exact Hvalid.
  - destruct (is_RequestException e); by intros [= <- <-].
Qed.

Lemma test_one_loop_requests sess url ua loose items :
  forall results (st st' : @St R) o,
    @test_one_loop R sess url ua loose items results st = (st', o) ->
    exists n,
      requests_of st'
      = requests_of st ++ map (request_for url ua) (take n (dict_keys items))
      /\ (forall out, o = Return out -> n = length items)
      /\ (forall e, o = Raise e -> 1 <= n <= length items).
Proof.
  induction items as [|[code name] items IH]; intros results st st' o; simpl.
  - intros [= <- <-]. exists 0. rewrite app_nil_r. by repeat split.
  - unfold bind at 1.
    destruct (@probe_code R sess url ua loose code st) as [st1 [entry|e]] eqn:Hp;
      apply probe_code_requests in Hp.
    + intros (n & Hn & Hret & Hraise)%IH. exists (S n). rewrite Hn, Hp. simpl.
      rewrite <- app_assoc. split; [done|]. split.
      * intros out Ho. by rewrite (Hret out Ho).
      * intros e Ho. specialize (Hraise e Ho). lia.
    + intros [= <- <-]. exists 1. split; [exact Hp|].
      split; [done|]. intros _ _. simpl. lia.
Qed.

(** X14. What a probe sends.  With any collaborators, beside a record
    of the requests (which changes nothing else: the run without the
    record has the same outcome), [test_one] hands to the HTTP client one
    request per code, in table order, and nothing else: all ten when it
    returns, a non-empty initial segment of them when an exception ends
    it.  Every request goes to the given URL with timeout 15 and the code
    as [Accept-Language]; it has a [User-Agent] header, the given one,
    exactly when that one is not empty. *)
Theorem probe_sends_one_request_per_code sess url ua loose (st st' : @St R)
    (o : outcome (list (string * (string * string))))
    (Hrun : @test_one R sess url ua loose st = (st', o)) :
  @test_one C sess url ua loose (erase st) = (erase st', o)
  /\ (exists n,
        requests_of st'
        = requests_of st
          ++ map (request_for url ua) (take n (dict_keys CODES))
        /\ (forall results, o = Return results -> n = 10)
        /\ (forall e, o = Raise e -> 1 <= n <= 10))
  /\ (forall code,
        request_for url ua code = (url, request_headers code ua, 15%Z)
        /\ dict_get (request_headers code ua) "Accept-Language" = Some code
        /\ dict_get (request_headers code ua) "User-Agent"
           = (if Py.truthy ua then Some ua else None)
        /\ length (request_headers code ua) = (if Py.truthy ua then 2 else 1)).
Proof.
  split; [|split].
  - rewrite (same_run_test_one sess url ua loose st). by rewrite Hrun.
  - by eapply test_one_loop_requests.
  - intros code. unfold request_headers. split; [done|].
    destruct (Py.truthy ua); done.
Qed.

End Requests.

Lemma probe_sends_one_request_per_code_witness :
  @test_one Mock.up tt Mock.duck "Mozilla/5.0" true
    (erase (@mkSt (recording Mock.up) (tt, []) ∅ []))
  = (erase (fst (@test_one (recording Mock.up) tt Mock.duck "Mozilla/5.0" true
                   (@mkSt (recording Mock.up) (tt, []) ∅ []))),
     snd (@test_one (recording Mock.up) tt Mock.duck "Mozilla/5.0" true
            (@mkSt (recording Mock.up) (tt, []) ∅ [])))
  /\ requests_of
       (fst (@test_one (recording Mock.up) tt Mock.duck "Mozilla/5.0" true
               (@mkSt (recording Mock.up) (tt, []) ∅ [])))
     = map (request_for Mock.duck "Mozilla/5.0") (dict_keys CODES)
  /\ request_for Mock.duck "Mozilla/5.0" "kab"
     = (Mock.duck, [("Accept-Language", "kab"); ("User-Agent", "Mozilla/5.0")], 15%Z).
Proof.
  split; [|split; [vm_compute; reflexivity | reflexivity]].
  exact (proj1 (@probe_sends_one_request_per_code Mock.up tt Mock.duck "Mozilla/5.0"
                  true (@mkSt (recording Mock.up) (tt, []) ∅ []) _ _
                  (surjective_pairing _))).
Defined.

(* ------------------------------------------------------------------ *)
(** ** The dialogue of the interactive mode *)

Section Dialogue.
Import Console.

Lemma print_menu_stdin table con : stdin (print_menu table con) = stdin con.
Proof.
  revert con. induction table as [|[k [name other]] table IH]; intros con; [done|].
  simpl. by rewrite IH.
Qed.

Lemma print_menu_stdout table con :
  stdout (print_menu table con)
  = stdout con
    ++ map (fun item => [Chars ("  " +:+ item.1 +:+ "  " +:+ item.2.1); Chars nl]) table.
Proof.
  revert con. induction table as [|[k [name other]] table IH]; intros con.
  - simpl. by rewrite app_nil_r.
  - simpl. rewrite IH. simpl. by rewrite <- app_assoc.
Qed.

Lemma ask_eof table lines out :
  Forall (fun l => dict_get table (strip l) = None) lines ->
  ask table lines out
  = (mkConsole [] (out ++ retries lines ++ [prompt]), Raise EOFError).
Proof.
  intros Hall. revert out.
  induction Hall as [|line lines Hline _ IH]; intros out; [done|].
  simpl. rewrite Hline, IH. by rewrite <- !app_assoc.
Qed.

Lemma ask_select table skipped line rest out entry :
  Forall (fun l => dict_get table (strip l) = None) skipped ->
  dict_get table (strip line) = Some entry ->
  ask table (skipped ++ line :: rest) out
  = (mkConsole rest (out ++ retries skipped ++ [prompt]), Return entry).
Proof.
  intros Hall Hline. revert out.
  induction Hall as [|l skipped Hl _ IH]; intros out.
  - simpl. by rewrite Hline.
  - simpl. rewrite Hl, IH. by rewrite <- !app_assoc.
Qed.

Lemma menu_key (table : list (string * (string * string))) k :
  dict_keys table = ["1"; "2"] ->
  (dict_get table k = None <-> k <> "1" /\ k <> "2")
  /\ (k = "1" \/ k = "2" -> is_Some (dict_get table k)).
Proof.
  intros Hkeys. split; [split|].
  - intros Hnone. split; intros ->.
    + destruct (dict_get_is_Some table "1") as [v Hv];
        [rewrite Hkeys; apply elem_of_cons; by left|].
      congruence.
    + destruct (dict_get_is_Some table "2") as [v Hv];
        [rewrite Hkeys; apply elem_of_cons; right; apply elem_of_cons; by left|].
      congruence.
  - intros [Hk1 Hk2]. destruct (dict_get table k) as [v|] eqn:Hget; [|done].
    apply dict_get_elem_of in Hget.
    assert (k ∈ dict_keys table) as Hin
      by (apply (list_elem_of_fmap_2 fst _ _ Hget)).
    rewrite Hkeys in Hin.
    apply elem_of_cons in Hin as [->|Hin]; [done|].
    apply elem_of_cons in Hin as [->|Hin]; [done|].
    by apply elem_of_nil in Hin.
  - intros Hk. apply dict_get_is_Some. rewrite Hkeys.
    apply elem_of_cons. destruct Hk as [->| ->]; [by left|].
    right. apply elem_of_cons. by left.
Qed.

Lemma no_answer_None (table : list (string * (string * string))) lines :
  dict_keys table = ["1"; "2"] ->
  Forall (fun l => ~ answer l) lines ->
  Forall (fun l => dict_get table (strip l) = None) lines.
Proof.
  intros Hkeys Hall. eapply Forall_impl; [exact Hall|]. intros l Hl. simpl.
  apply (menu_key table _ Hkeys). unfold answer in Hl. tauto.
Qed.

Lemma choose_select title table con skipped line rest :
  dict_keys table = ["1"; "2"] ->
  stdin con = skipped ++ line :: rest ->
  Forall (fun l => ~ answer l) skipped ->
  answer line ->
  exists entry,
    dict_get table (strip line) = Some entry
    /\ choose title table con
       = (mkConsole rest
            (stdout con
             ++ [[Chars (nl +:+ title); Chars nl]]
             ++ map (fun item =>
                       [Chars ("  " +:+ item.1 +:+ "  " +:+ item.2.1); Chars nl]) table
             ++ retries skipped ++ [prompt]),
          Return entry).
Proof.
  intros Hkeys Hin Hskipped Hline.
  destruct (proj2 (menu_key table (strip line) Hkeys) Hline) as [entry Hentry].
  exists entry. split; [done|].
  unfold choose. rewrite print_menu_stdin, print_menu_stdout. simpl.
  rewrite Hin.
  rewrite (ask_select table skipped line rest _ entry
             (no_answer_None _ _ Hkeys Hskipped) Hentry).
  by rewrite <- !app_assoc.
Qed.

Lemma choose_eof title table con :
  dict_keys table = ["1"; "2"] ->
  Forall (fun l => ~ answer l) (stdin con) ->
  choose title table con
  = (mkConsole []
       (stdout con
        ++ [[Chars (nl +:+ title); Chars nl]]
        ++ map (fun item =>
                  [Chars ("  " +:+ item.1 +:+ "  " +:+ item.2.1); Chars nl]) table
        ++ retries (stdin con) ++ [prompt]),
     Raise EOFError).
Proof.
  intros Hkeys Hall.
  unfold choose. rewrite print_menu_stdin, print_menu_stdout. simpl.
  rewrite (ask_eof table _ _ (no_answer_None _ _ Hkeys Hall)).
  by rewrite <- !app_assoc.
Qed.

(** The first answer among the lines, if there is one. *)
Lemma first_answer lines :
  Forall (fun l => ~ answer l) lines
  \/ exists skipped line rest,
       lines = skipped ++ line :: rest
       /\ Forall (fun l => ~ answer l) skipped /\ answer line.
Proof.
  induction lines as [|l lines IH]; [by left|].
  destruct (decide (answer l)) as [Hl|Hl].
  - right. by exists [], l, lines.
  - destruct IH as [Hall|(skipped & line & rest & -> & Hskipped & Hline)].
    + left. by constructor.
    + right. exists (l :: skipped), line, rest. split; [done|].
      split; [by constructor | done].
Qed.

Lemma filter_no_answer lines :
  Forall (fun l => ~ answer l) lines -> filter answer lines = [].
Proof.
  induction 1 as [|l lines Hl _ IH]; [done|].
  by rewrite filter_cons_False.
Qed.

Lemma filter_first_answer skipped line rest :
  Forall (fun l => ~ answer l) skipped -> answer line ->
  filter answer (skipped ++ line :: rest) = line :: filter answer rest.
Proof.
  intros Hskipped Hline.
  rewrite filter_app, (filter_no_answer _ Hskipped). simpl.
  by rewrite filter_cons_True.
Qed.

(** X15. Both menus take the first line of standard input that, once
    stripped of surrounding white space, is [1] or [2], and return the
    table entry of that key.  Every line before it was read and answered
    with one complaint, the lines after it are left on standard input,
    and the output is the title, the two menu lines, one prompt and one
    complaint per line turned down, and the prompt that read the
    answer. *)
Theorem menus_take_first_answer (con : console) skipped line rest
    (Hin : stdin con = skipped ++ line :: rest)
    (Hskipped : Forall (fun l => ~ answer l) skipped)
    (Hline : answer line) :
  exists site device,
    dict_get SITES (strip line) = Some site
    /\ dict_get DEVICES (strip line) = Some device
    /\ choose_site con
       = (mkConsole rest
            (stdout con
             ++ [ [Chars (nl +:+ "Choose site to test:"); Chars nl];
                  [Chars "  1  DuckDuckGo"; Chars nl];
                  [Chars "  2  Nextcloud"; Chars nl] ]
             ++ retries skipped ++ [prompt]),
          Return site)
    /\ choose_device con
       = (mkConsole rest
            (stdout con
             ++ [ [Chars (nl +:+ "Choose device profile:"); Chars nl];
                  [Chars "  1  desktop"; Chars nl];
                  [Chars "  2  mobile"; Chars nl] ]
             ++ retries skipped ++ [prompt]),
          Return device).
Proof.
  destruct (choose_select "Choose site to test:" SITES con skipped line rest
              eq_refl Hin Hskipped Hline) as (site & Hsite & Hchoose_site).
  destruct (choose_select "Choose device profile:" DEVICES con skipped line rest
              eq_refl Hin Hskipped Hline) as (device & Hdevice & Hchoose_device).
  exists site, device. split; [done|]. split; [done|].
  unfold choose_site, choose_device.
  rewrite Hchoose_site, Hchoose_device. done.
Qed.

(** X16. When no line of standard input is an answer, both menus read
    all of it, answer each line with the complaint, prompt once more and
    raise the end-of-file error of [input]. *)
Theorem menus_end_of_input (con : console)
    (Hnone : Forall (fun l => ~ answer l) (stdin con)) :
  choose_site con
  = (mkConsole []
       (stdout con
        ++ [ [Chars (nl +:+ "Choose site to test:"); Chars nl];
             [Chars "  1  DuckDuckGo"; Chars nl];
             [Chars "  2  Nextcloud"; Chars nl] ]
        ++ retries (stdin con) ++ [prompt]),
     Raise EOFError)
  /\ choose_device con
     = (mkConsole []
          (stdout con
           ++ [ [Chars (nl +:+ "Choose device profile:"); Chars nl];
                [Chars "  1  desktop"; Chars nl];
                [Chars "  2  mobile"; Chars nl] ]
           ++ retries (stdin con) ++ [prompt]),
        Raise EOFError).
Proof.
  unfold choose_site, choose_device.
  rewrite (choose_eof "Choose site to test:" SITES con eq_refl Hnone).
  rewrite (choose_eof "Choose device profile:" DEVICES con eq_refl Hnone).
  done.
Qed.

End Dialogue.

Section Interactive.
Context `{Collaborators}.
Import Console.

Lemma print_rows_ok results items con :
  (forall item, item ∈ items -> item.1 ∈ dict_keys results) ->
  exists lines,
    print_rows results items con
    = (mkConsole (stdin con) (stdout con ++ lines), Return tt)
    /\ Forall2 (fun item line =>
                  exists label got,
                    dict_get results item.1 = Some (label, got)
                    /\ line = row item.1 item.2 label got ++ [Chars nl])
               items lines.
Proof.
  revert con. induction items as [|[code name] items IH]; intros con Hkeys.
  - exists []. split; [|constructor]. simpl. rewrite app_nil_r. by destruct con.
  - destruct (dict_get_is_Some results code) as [[label got] Hget].
    { apply (Hkeys (code, name)). apply elem_of_cons. by left. }
    destruct (IH (print (row code name label got) con)) as (lines & Hrun & Hlines).
    { intros item Hitem. apply Hkeys. apply elem_of_cons. by right. }
    exists ((row code name label got ++ [Chars nl]) :: lines). split.
    + simpl. rewrite Hget, Hrun. simpl. by rewrite <- app_assoc.
    + constructor; [|done]. by exists label, got.
Qed.

(** X17. With fewer than two answers on standard input the interactive
    mode ends with the end-of-file error of [input], having read all of
    standard input; it has created no session, sent no request and asked
    the language oracle nothing: the state is the one it started
    from. *)
Theorem interactive_needs_two_answers loose (con : console) (st : St)
    (Hfew : length (filter answer (stdin con)) < 2) :
  exists con',
    interactive_mode loose con st = ((st, con'), Raise EOFError)
    /\ stdin con' = [].
Proof.
  unfold interactive_mode, choose_site, choose_device.
  destruct (first_answer (stdin con))
    as [Hnone|(skipped & line & rest & Hin & Hskipped & Hline)].
  - rewrite (choose_eof _ SITES con eq_refl Hnone). by eexists.
  - destruct (choose_select "Choose site to test:" SITES con skipped line rest
                eq_refl Hin Hskipped Hline) as ([site_name site_url] & _ & ->).
    rewrite Hin, (filter_first_answer _ _ _ Hskipped Hline) in Hfew.
    simpl in Hfew.
    match goal with
    | |- context [choose _ DEVICES ?c] => set (con_s := c)
    end.
    destruct (first_answer (stdin con_s))
      as [Hnone|(skipped' & line' & rest' & Hin' & Hskipped' & Hline')].
    + rewrite (choose_eof _ DEVICES con_s eq_refl Hnone). by eexists.
    + simpl in Hin'. rewrite Hin', (filter_first_answer _ _ _ Hskipped' Hline') in Hfew.
      simpl in Hfew. lia.
Qed.

(** X18. With two answers on standard input and an HTTP client that
    fails with transport failures only, the interactive mode returns:
    the site menu returned a site and the device menu, run on the
    console the site menu left, a device; one session was created and
    the probe ran once, with the URL of that site and the user agent of
    that device; after the line that announces the probe, exactly one
    row per code of the table was printed, in table order, with the
    label and evidence the probe returned for it.  No lookup in the
    results fails. *)
Theorem interactive_prints_ten_rows loose (con : console) (st : St)
    (Htwo : 2 <= length (filter answer (stdin con)))
    (Htransport : transport_failures_only) :
  exists con_s con_d site_name site_url device_name ua w sess results st' lines,
    choose_site con = (con_s, Return (site_name, site_url))
    /\ choose_device con_s = (con_d, Return (device_name, ua))
    /\ requests_Session (world st) = (w, sess)
    /\ test_one sess site_url ua loose (mkSt w (lru st) (calls st))
       = (st', Return results)
    /\ interactive_mode loose con st
       = ((st', mkConsole (stdin con_d)
                  (stdout con_d
                   ++ [testing site_url device_name ++ [Chars nl]] ++ lines)),
          Return tt)
    /\ Forall2 (fun item line =>
                  exists label got,
                    dict_get results item.1 = Some (label, got)
                    /\ line = row item.1 item.2 label got ++ [Chars nl])
               CODES lines
    /\ length lines = 10.
Proof.
  destruct (first_answer (stdin con))
    as [Hnone|(skipped & line & rest & Hin & Hskipped & Hline)].
  { rewrite (filter_no_answer _ Hnone) in Htwo. simpl in Htwo. lia. }
  destruct (choose_select "Choose site to test:" SITES con skipped line rest
              eq_refl Hin Hskipped Hline) as ([site_name site_url] & _ & Hsite).
  rewrite Hin, (filter_first_answer _ _ _ Hskipped Hline) in Htwo.
  simpl in Htwo.
  match type of Hsite with _ = (?c, _) => set (con_s := c) in * end.
  destruct (first_answer (stdin con_s))
    as [Hnone|(skipped' & line' & rest' & Hin' & Hskipped' & Hline')].
  { simpl in Hnone. rewrite (filter_no_answer _ Hnone) in Htwo. simpl in Htwo. lia. }
  destruct (choose_select "Choose device profile:" DEVICES con_s skipped' line' rest'
              eq_refl Hin' Hskipped' Hline') as ([device_name ua] & _ & Hdevice).
  match type of Hdevice with _ = (?c, _) => set (con_d := c) in * end.
  destruct (requests_Session (world st)) as [w sess] eqn:Hsess.
  destruct (test_one_returns sess site_url ua loose (mkSt w (lru st) (calls st))
              Htransport) as (results & st' & Hrun).
  destruct (print_rows_ok results CODES
              (print (testing site_url device_name) con_d)) as (lines & Hrows & Hlines).
  { intros item Hitem. rewrite (test_one_keys _ _ _ _ _ _ _ Hrun).
    by apply (list_elem_of_fmap_2 fst). }
  exists con_s, con_d, site_name, site_url, device_name, ua, w, sess, results, st', lines.
  split; [exact Hsite|]. split; [exact Hdevice|]. split; [done|]. split; [exact Hrun|].
  split; [|split; [exact Hlines|]].
  - unfold interactive_mode. fold choose_site in Hsite. 
    unfold choose_site, choose_device in *. rewrite Hsite, Hdevice.
    unfold bind, call. rewrite Hsess, Hrun, Hrows. simpl.
    by rewrite <- app_assoc.
  - by rewrite <- (Forall2_length _ _ _ Hlines).
Qed.

End Interactive.

Lemma menus_take_first_answer_witness :
  exists site device,
    dict_get SITES (Console.strip " 2 ") = Some site
    /\ dict_get DEVICES (Console.strip " 2 ") = Some device
    /\ choose_site (Console.mkConsole ["x"; " 2 "; "1"] [])
       = (Console.mkConsole ["1"]
            ([] ++ [ [Console.Chars (Console.nl +:+ "Choose site to test:");
                      Console.Chars Console.nl];
                     [Console.Chars "  1  DuckDuckGo"; Console.Chars Console.nl];
                     [Console.Chars "  2  Nextcloud"; Console.Chars Console.nl] ]
             ++ retries ["x"] ++ [Console.prompt]),
          Return site)
    /\ choose_device (Console.mkConsole ["x"; " 2 "; "1"] [])
       = (Console.mkConsole ["1"]
            ([] ++ [ [Console.Chars (Console.nl +:+ "Choose device profile:");
                      Console.Chars Console.nl];
                     [Console.Chars "  1  desktop"; Console.Chars Console.nl];
                     [Console.Chars "  2  mobile"; Console.Chars Console.nl] ]
             ++ retries ["x"] ++ [Console.prompt]),
          Return device).
Proof.
  apply (menus_take_first_answer (Console.mkConsole ["x"; " 2 "; "1"] [])
           ["x"] " 2 " ["1"] eq_refl).
  - constructor; [|constructor].
    intros [Hx|Hx]; vm_compute in Hx; discriminate.
  - right. reflexivity.
Defined.

Lemma menus_end_of_input_witness :
  choose_site (Console.mkConsole ["x"; "12"] [])
  = (Console.mkConsole []
       ([] ++ [ [Console.Chars (Console.nl +:+ "Choose site to test:");
                 Console.Chars Console.nl];
                [Console.Chars "  1  DuckDuckGo"; Console.Chars Console.nl];
                [Console.Chars "  2  Nextcloud"; Console.Chars Console.nl] ]
        ++ retries ["x"; "12"] ++ [Console.prompt]),
     Raise Console.EOFError)
  /\ choose_device (Console.mkConsole ["x"; "12"] [])
     = (Console.mkConsole []
          ([] ++ [ [Console.Chars (Console.nl +:+ "Choose device profile:");
                    Console.Chars Console.nl];
                   [Console.Chars "  1  desktop"; Console.Chars Console.nl];
                   [Console.Chars "  2  mobile"; Console.Chars Console.nl] ]
           ++ retries ["x"; "12"] ++ [Console.prompt]),
        Raise Console.EOFError).
Proof.
  apply (menus_end_of_input (Console.mkConsole ["x"; "12"] [])).
  repeat constructor; intros [Hx|Hx]; vm_compute in Hx; discriminate.
Defined.

Lemma interactive_needs_two_answers_witness :
  exists con',
    @interactive_mode Mock.up false (Console.mkConsole ["3"; "1"; "one"] [])
      (Mock.start true)
    = ((Mock.start true, con'), Raise Console.EOFError)
    /\ Console.stdin con' = [].
Proof.
  apply (@interactive_needs_two_answers Mock.up false
           (Console.mkConsole ["3"; "1"; "one"] []) (Mock.start true)).
  vm_compute. lia.
Defined.

Lemma interactive_prints_ten_rows_witness :
  exists con_s con_d site_name site_url device_name ua w sess results st' lines,
    choose_site (Console.mkConsole ["1"; "0"; "2"; "left"] [])
    = (con_s, Return (site_name, site_url))
    /\ choose_device con_s = (con_d, Return (device_name, ua))
    /\ @requests_Session Mock.up (world (Mock.start true)) = (w, sess)
    /\ @test_one Mock.up sess site_url ua true
         (mkSt w (lru (Mock.start true)) (calls (Mock.start true)))
       = (st', Return results)
    /\ @interactive_mode Mock.up true (Console.mkConsole ["1"; "0"; "2"; "left"] [])
         (Mock.start true)
       = ((st', Console.mkConsole (Console.stdin con_d)
                  (Console.stdout con_d
                   ++ [testing site_url device_name ++ [Console.Chars Console.nl]]
                   ++ lines)),
          Return tt)
    /\ Forall2 (fun item line =>
                  exists label got,
                    dict_get results item.1 = Some (label, got)
                    /\ line = row item.1 item.2 label got
                              ++ [Console.Chars Console.nl])
               CODES lines
    /\ length lines = 10.
Proof.
  apply (@interactive_prints_ten_rows Mock.up true
           (Console.mkConsole ["1"; "0"; "2"; "left"] []) (Mock.start true)).
  - vm_compute. lia.
  - exact mock_transport_failures_only.
Defined.

Lemma job_unknown_key_witness :
  exists e,
    @_job Mock.up "3" "1" false (Mock.start true) = (Mock.start true, Raise e)
    /\ exc_class e = KeyError.
Proof.
  apply (proj1 (@job_unknown_key Mock.up "3" "1" false (Mock.start true))).
  reflexivity.
Defined.
